(** * django-silky: the telemetry analytics core, embedded and verified

    A shallow embedding of the analytics functions of

      - [silk/utils/n_plus_one.py]  (fingerprint_query, detect_n_plus_one),
      - [silk/views/summary.py]     (_percentile, _status_distribution,
                                     _response_time_histogram),
      - [silk/views/requests.py]    (_apply_sort, RequestsView._get_objects,
                                     RequestsView.post),

    with the properties the design document states about them.

    Conventions of the embedding.
      - Python [float]s are modelled by exact rationals [Q] (the percentile
        estimator also on binary64 floats, for the worked examples); Python
        [int]s by [Z].
      - Python [str]s are modelled by [string] / [list ascii]; the character
        classes of [re] and [str] are the ones CPython uses on code points
        below 128.
      - Python [dict]s whose iteration order matters are association lists in
        insertion order; the others are stdpp [gmap]s.
      - A raised exception is an explicit [None] / [Raise] result. *)

From Stdlib Require Import ZArith QArith Qround List Ascii String Bool Lia.
From Stdlib Require Import Permutation Floats Uint63.
From stdpp Require Import gmap strings list fin_maps.
Import ListNotations.

(* ===================================================================== *)
(** * Percentile estimator ([silk/views/summary.py], [_percentile])       *)
(* ===================================================================== *)

Module Percentile.

Local Open Scope Z_scope.

(** [l[i]] on a Python list: a negative index counts from the end, an index
    out of range raises [IndexError] (here [None]). *)
Definition py_getitem {A : Type} (l : list A) (i : Z) : option A :=
  let n := Z.of_nat (List.length l) in
  if (0 <=? i) && (i <? n) then nth_error l (Z.to_nat i)
  else if (- n <=? i) && (i <? 0) then nth_error l (Z.to_nat (n + i))
  else None.

(** ** The source function on binary64 floats

    [_percentile] with the arithmetic of CPython's [float] (IEEE 754
    binary64, round to nearest even), on Rocq's primitive floats. *)

(** [float(z)] for an integer within 63 bits (list lengths and indices). *)
Definition float_of_int (z : Z) : float :=
  match z with
  | Z0 => PrimFloat.of_uint63 0
  | Zpos _ => PrimFloat.of_uint63 (Uint63.of_Z z)
  | Zneg q => PrimFloat.opp (PrimFloat.of_uint63 (Uint63.of_Z (Zpos q)))
  end.

(** [int(x)] on a float: truncation toward zero; it raises on an infinity
    or a NaN (here [None]). *)
Definition int_of_float (x : float) : option Z :=
  match Prim2SF x with
  | S754_zero _ => Some 0
  | S754_finite s m e =>
    let v := match e with
             | Z0 => Zpos m
             | Zpos _ => Zpos m * 2 ^ e
             | Zneg k => Zpos m / 2 ^ Zpos k
             end in
    Some (if s then - v else v)
  | _ => None
  end.

(** The source function, line by line; [None] stands for a raised
    exception.
<<
    n = len(sorted_data)
    if n == 0: return 0.0
    idx = (p / 100.0) * (n - 1)
    lo = int(idx); hi = lo + 1; frac = idx - lo
    if hi >= n: return float(sorted_data[-1])
    return sorted_data[lo] * (1 - frac) + sorted_data[hi] * frac
>> *)
Definition _percentile_float (sorted_data : list float) (p : float) : option float :=
  let n := Z.of_nat (List.length sorted_data) in
  if n =? 0 then Some 0%float
  else
    let idx := ((p / 100) * float_of_int (n - 1))%float in
    match int_of_float idx with
    | None => None
    | Some lo =>
      let hi := lo + 1 in
      let frac := (idx - float_of_int lo)%float in
      if hi >=? n then py_getitem sorted_data (-1)
      else
        match py_getitem sorted_data lo, py_getitem sorted_data hi with
        | Some a, Some b => Some (a * (float_of_int 1 - frac) + b * frac)%float
        | _, _ => None
        end
    end.

(** [floor(x)] of a finite number [x]; 0 for an infinity or a NaN, which
    have no floor. *)
Definition floor_of_float (x : float) : Z :=
  match Prim2SF x with
  | S754_finite s m e =>
    let z := if s then Zneg m else Zpos m in
    match e with
    | Zneg k => z / 2 ^ Zpos k
    | _ => z * 2 ^ e
    end
  | _ => 0
  end.

(** The linear-interpolation definition, as the design document words it,
    read in binary64: [idx = p/100 * (n-1)], [lo = floor idx],
    [hi = lo + 1], [frac = idx - lo]; the last element when [hi >= n], else
    [sample[lo]*(1-frac) + sample[hi]*frac]; an empty sample gives 0. *)
Definition interpolation_spec (sample : list float) (p : float) : float :=
  match sample with
  | [] => 0%float
  | _ =>
    let n := Z.of_nat (List.length sample) in
    let idx := (p / 100 * float_of_int (n - 1))%float in
    let lo := floor_of_float idx in
    let hi := lo + 1 in
    let frac := (idx - float_of_int lo)%float in
    if n <=? hi then List.last sample 0%float
    else (nth (Z.to_nat lo) sample 0 * (1 - frac)
          + nth (Z.to_nat hi) sample 0 * frac)%float
  end.

(** The number 100.0. *)
Definition hundred : spec_float := S754_finite false 7036874417766400 (-46).

(** ** The source function in exact arithmetic

    [_percentile] once more with every number a rational and no rounding:
    what the code computes where nothing is rounded. *)



(** ** Lemmas *)


Lemma py_getitem_in_range {A : Type} (l : list A) (i : Z) (d : A) :
  0 <= i < Z.of_nat (List.length l) ->
  py_getitem l i = Some (nth (Z.to_nat i) l d).
Proof.
  intros H. unfold py_getitem.
  replace ((0 <=? i) && (i <? Z.of_nat (List.length l))) with true
    by (symmetry; apply andb_true_iff; split; [apply Z.leb_le | apply Z.ltb_lt]; lia).
  apply nth_error_nth'. lia.
Qed.

Lemma last_as_nth {A : Type} (l : list A) (d : A) :
  List.last l d = nth (List.length l - 1) l d.
Proof.
  induction l as [|a l IH]; [reflexivity|].
  destruct l as [|b l']; [reflexivity|].
  change (List.last (a :: b :: l') d) with (List.last (b :: l') d).
  rewrite IH. simpl. rewrite Nat.sub_0_r. reflexivity.
Qed.

Lemma py_getitem_last {A : Type} (l : list A) (d : A) :
  l <> [] -> py_getitem l (-1) = Some (List.last l d).
Proof.
  intros Hne. unfold py_getitem.
  assert (Hlen : (0 < List.length l)%nat) by (destruct l; [congruence | simpl; lia]).
  replace ((0 <=? -1) && (-1 <? Z.of_nat (List.length l))) with false by reflexivity.
  replace ((- Z.of_nat (List.length l) <=? -1) && (-1 <? 0)) with true
    by (symmetry; apply andb_true_iff; split; [apply Z.leb_le; lia | reflexivity]).
  replace (Z.to_nat (Z.of_nat (List.length l) + -1)) with (List.length l - 1)%nat by lia.
  rewrite (nth_error_nth' l d) by lia.
  rewrite last_as_nth. reflexivity.
Qed.

(** ** Sizes of binary64 numbers

    The number of binary digits of a mantissa, and what rounding
    ([binary_round_aux] of the specification of the primitive floats) does
    to it: enough to see that the index [p/100 * (n-1)] neither overflows
    nor turns negative. *)

Lemma digits2_pos_size (p : positive) : digits2_pos p = Pos.size p.
Proof. induction p as [p IH|p IH|]; simpl; rewrite ?IH; reflexivity. Qed.

Lemma Zdigits2_log2 (m : Z) : 0 < m -> Zdigits2 m = Z.log2 m + 1.
Proof.
  destruct m as [|p|p]; try lia. intros _. simpl. rewrite digits2_pos_size.
  destruct p as [p|p|]; simpl; lia.
Qed.

Lemma Zdigits2_nonneg (m : Z) : 0 <= Zdigits2 m.
Proof. destruct m; simpl; lia. Qed.

Lemma Zdigits2_mono (a b : Z) : 0 <= a -> a <= b -> Zdigits2 a <= Zdigits2 b.
Proof.
  intros Ha Hab. destruct (Z.eq_dec a 0) as [-> | Hne].
  - apply Zdigits2_nonneg.
  - rewrite !Zdigits2_log2 by lia. pose proof (Z.log2_le_mono a b Hab). lia.
Qed.

Lemma Zdigits2_shiftr (m k : Z) :
  0 <= m -> 0 <= k -> Zdigits2 (Z.shiftr m k) <= Z.max 0 (Zdigits2 m - k).
Proof.
  intros Hm Hk.
  assert (Hs : 0 <= Z.shiftr m k) by (apply Z.shiftr_nonneg; exact Hm).
  destruct (Z.eq_dec (Z.shiftr m k) 0) as [E | Hne].
  - rewrite E. simpl. lia.
  - assert (Hpos : 0 < m).
    { destruct (Z.eq_dec m 0) as [-> | ]; [rewrite Z.shiftr_0_l in Hne; lia | lia]. }
    rewrite (Zdigits2_log2 (Z.shiftr m k)) by lia.
    rewrite (Zdigits2_log2 m Hpos).
    rewrite (Z.log2_shiftr m k Hpos).
    assert (Hk' : k <= Z.log2 m).
    { apply Z.log2_le_pow2; [exact Hpos|].
      rewrite Z.shiftr_div_pow2 in Hne, Hs by exact Hk.
      assert (H2 : 0 < 2 ^ k) by (apply Z.pow_pos_nonneg; lia).
      destruct (Z_lt_le_dec m (2 ^ k)) as [Hlt | Hle]; [|exact Hle].
      rewrite Z.div_small in Hne by lia. lia. }
    lia.
Qed.

Lemma Zdigits2_shiftl (m k : Z) :
  0 < m -> 0 <= k -> Zdigits2 (Z.shiftl m k) = Zdigits2 m + k.
Proof.
  intros Hm Hk.
  assert (Hs : 0 < Z.shiftl m k).
  { rewrite Z.shiftl_mul_pow2 by exact Hk.
    apply Z.mul_pos_pos; [exact Hm | apply Z.pow_pos_nonneg; lia]. }
  rewrite !Zdigits2_log2 by assumption.
  rewrite Z.log2_shiftl by assumption. lia.
Qed.

Lemma Zdigits2_mul (a b : positive) :
  Zdigits2 (Zpos (a * b)) <= Zdigits2 (Zpos a) + Zdigits2 (Zpos b).
Proof.
  rewrite !Zdigits2_log2 by lia. rewrite Pos2Z.inj_mul.
  pose proof (Z.log2_mul_above (Zpos a) (Zpos b) ltac:(lia) ltac:(lia)). lia.
Qed.

Lemma Zdigits2_succ (m : Z) : 0 <= m -> Zdigits2 (m + 1) <= Zdigits2 m + 1.
Proof.
  intros Hm. destruct (Z.eq_dec m 0) as [-> | Hne]; [simpl; lia|].
  rewrite !Zdigits2_log2 by lia.
  pose proof (Z.log2_succ_le m). unfold Z.succ in *. lia.
Qed.

(** The mantissa after [k] shifts to the right. *)
Lemma shr_m_shr_1 (mrs : shr_record) :
  0 <= shr_m mrs -> shr_m (shr_1 mrs) = Z.shiftr (shr_m mrs) 1.
Proof.
  destruct mrs as [m r s]. simpl. intros Hm.
  rewrite <- Z.div2_spec.
  destruct m as [|[p|p|]|p]; try reflexivity; lia.
Qed.

Lemma shr_m_iter (k : positive) :
  forall mrs : shr_record,
    0 <= shr_m mrs ->
    shr_m (SpecFloat.iter_pos shr_1 k mrs) = Z.shiftr (shr_m mrs) (Zpos k).
Proof.
  induction k as [k IH|k IH|]; intros mrs Hm.
  - cbn [SpecFloat.iter_pos].
    assert (H1 : 0 <= shr_m (shr_1 mrs))
      by (rewrite shr_m_shr_1 by exact Hm; apply Z.shiftr_nonneg; exact Hm).
    assert (H2 : 0 <= shr_m (SpecFloat.iter_pos shr_1 k (shr_1 mrs)))
      by (rewrite IH by exact H1; apply Z.shiftr_nonneg; exact H1).
    rewrite (IH _ H2), (IH _ H1), shr_m_shr_1 by exact Hm.
    rewrite !Z.shiftr_shiftr by lia. f_equal. lia.
  - cbn [SpecFloat.iter_pos].
    assert (H2 : 0 <= shr_m (SpecFloat.iter_pos shr_1 k mrs))
      by (rewrite IH by exact Hm; apply Z.shiftr_nonneg; exact Hm).
    rewrite (IH _ H2), (IH _ Hm).
    rewrite !Z.shiftr_shiftr by lia. f_equal. lia.
  - cbn [SpecFloat.iter_pos]. apply shr_m_shr_1. exact Hm.
Qed.

Lemma shr_m_record_of_loc (m : Z) (l : location) : shr_m (shr_record_of_loc m l) = m.
Proof. destruct l as [|[| |]]; reflexivity. Qed.

(** One alignment step of the rounding: the exponent and the size after
    [shr_fexp]. *)
Lemma shr_fexp_bound (m e : Z) (l : location) (E : Z) :
  0 <= m -> e <= E -> Zdigits2 m + e <= E + 53 -> -1074 <= E ->
  let '(mrs, e') := shr_fexp 53 1024 m e l in
  0 <= shr_m mrs /\ e' <= E
  /\ Zdigits2 (shr_m mrs) + e' <= Z.max e' (Zdigits2 m + e).
Proof.
  intros Hm He Hd HE. unfold shr_fexp, shr.
  set (n := fexp 53 1024 (Zdigits2 m + e) - e).
  assert (Hn : n = Z.max (Zdigits2 m + e - 53) (-1074) - e) by reflexivity.
  clearbody n.
  pose proof (Zdigits2_nonneg m) as Hd0.
  destruct n as [|k|k].
  - rewrite shr_m_record_of_loc. lia.
  - rewrite shr_m_iter by (rewrite shr_m_record_of_loc; exact Hm).
    rewrite shr_m_record_of_loc.
    split; [apply Z.shiftr_nonneg; exact Hm|]. split; [lia|].
    pose proof (Zdigits2_shiftr m (Zpos k) Hm ltac:(lia)). lia.
  - rewrite shr_m_record_of_loc. lia.
Qed.

Lemma round_nearest_even_bound (m : Z) (l : location) :
  0 <= m -> m <= round_nearest_even m l <= m + 1.
Proof.
  intros Hm. destruct l as [|[| |]]; simpl; try lia.
  destruct (Z.even m); lia.
Qed.

(** The result of a rounding whose input is small enough: a zero or a
    finite number of the given sign, with a bounded exponent. *)
Lemma binary_round_aux_bound (s : bool) (m e : Z) (l : location) (E : Z) :
  0 <= m -> e <= E -> Zdigits2 m + e <= E + 52 -> -1074 <= E -> E <= 971 ->
  match binary_round_aux 53 1024 s m e l with
  | S754_zero s' => s' = s
  | S754_finite s' _ e' => s' = s /\ e' <= E
  | _ => False
  end.
Proof.
  intros Hm He Hd HE1 HE2. unfold binary_round_aux.
  pose proof (shr_fexp_bound m e l E Hm He ltac:(lia) HE1) as H1.
  destruct (shr_fexp 53 1024 m e l) as [mrs' e'].
  destruct H1 as (Hm' & He' & Hd').
  pose proof (round_nearest_even_bound (shr_m mrs') (loc_of_shr_record mrs') Hm') as Hr.
  set (m1 := round_nearest_even (shr_m mrs') (loc_of_shr_record mrs')) in *.
  assert (Hd1 : Zdigits2 m1 + e' <= E + 53).
  { pose proof (Zdigits2_mono m1 (shr_m mrs' + 1) ltac:(lia) ltac:(lia)).
    pose proof (Zdigits2_succ (shr_m mrs') Hm'). lia. }
  pose proof (shr_fexp_bound m1 e' loc_Exact E ltac:(lia) He' Hd1 HE1) as H2.
  destruct (shr_fexp 53 1024 m1 e' loc_Exact) as [mrs'' e''].
  destruct H2 as (Hm'' & He'' & _).
  destruct (shr_m mrs'') as [|q|q]; [reflexivity | | lia].
  destruct (e'' <=? 1024 - 53) eqn:Hle.
  - split; [reflexivity | exact He''].
  - apply Z.leb_gt in Hle. lia.
Qed.


(** ** The numbers of [_percentile_float] *)

Lemma digits2_pos_iter (m d : positive) :
  digits2_pos (Pos.iter xO m d) = (digits2_pos m + d)%positive.
Proof.
  induction d as [|d IH] using Pos.peano_ind.
  - simpl. rewrite Pos.add_1_r. reflexivity.
  - rewrite Pos.iter_succ. simpl. rewrite IH, Pos.add_succ_r. reflexivity.
Qed.

Lemma bounded_digits (m : positive) (e : Z) :
  bounded 53 1024 m e = true ->
  Zdigits2 (Zpos m) <= 53 /\ -1074 <= e <= 971.
Proof.
  unfold bounded, canonical_mantissa, fexp. intros H.
  apply andb_true_iff in H as [H1 H2].
  apply Z.eqb_eq in H1. apply Z.leb_le in H2.
  change (SpecFloat.emin 53 1024) with (-1074) in H1.
  simpl Zdigits2. lia.
Qed.

Lemma of_uint63_small (n : int) :
  match Prim2SF (of_uint63 n) with
  | S754_zero s => s = false
  | S754_finite s _ e => s = false /\ e <= 11
  | _ => False
  end.
Proof.
  rewrite FloatAxioms.of_uint63_spec.
  pose proof (Uint63.to_Z_bounded n) as Hb.
  destruct (Uint63.to_Z n) as [|m|m]; [reflexivity | | lia].
  unfold binary_normalize, binary_round.
  change FloatOps.prec with 53. change FloatOps.emax with 1024.
  assert (Hd : Zdigits2 (Zpos m) <= 63).
  { rewrite Zdigits2_log2 by lia.
    assert (Z.log2 (Zpos m) < 63); [|lia].
    apply Z.log2_lt_pow2; [lia|]. exact (proj2 Hb). }
  simpl Zdigits2 in Hd.
  unfold shl_align, fexp. change (SpecFloat.emin 53 1024) with (-1074).
  destruct (Z.max (Zpos (digits2_pos m) + 0 - 53) (-1074) - 0) as [|d|d] eqn:Ed.
  - apply (binary_round_aux_bound false (Zpos m) 0 loc_Exact 11); simpl Zdigits2; lia.
  - apply (binary_round_aux_bound false (Zpos m) 0 loc_Exact 11); simpl Zdigits2; lia.
  - apply (binary_round_aux_bound false (Zpos (Pos.iter xO m d)) _ loc_Exact 11);
      try lia.
    simpl Zdigits2. rewrite digits2_pos_iter. lia.
Qed.

Lemma Prim2SF_100 : Prim2SF 100 = hundred.
Proof. vm_compute. reflexivity. Qed.

Lemma Prim2SF_0 : Prim2SF 0 = S754_zero false.
Proof. vm_compute. reflexivity. Qed.

(** A finite number divided by 100. *)
Lemma div_100_bound (s : bool) (m : positive) (e : Z) :
  bounded 53 1024 m e = true ->
  match SFdiv 53 1024 (S754_finite s m e) hundred with
  | S754_zero s' => s' = s
  | S754_finite s' _ e' =>
    s' = s /\ e' <= Z.max (-1074) (Zdigits2 (Zpos m) + e - 58)
  | _ => False
  end.
Proof.
  intros Hb. destruct (bounded_digits m e Hb) as [Hd He].
  unfold hundred, SFdiv, SFdiv_core_binary.
  set (d1 := Zdigits2 (Zpos m)) in *.
  change (Zdigits2 (Zpos 7036874417766400)) with 53.
  unfold fexp. change (SpecFloat.emin 53 1024) with (-1074).
  set (e' := Z.min (Z.max (d1 + e - (53 + -46) - 53) (-1074)) (e - -46)).
  set (sh := e - -46 - e').
  set (m' := match sh with
             | 0 => Zpos m
             | Zpos _ => Z.shiftl (Zpos m) sh
             | Zneg _ => 0
             end).
  assert (Hsh : 0 <= sh) by (subst sh e'; lia).
  assert (Hm' : 0 <= m' /\ Zdigits2 m' <= d1 + sh).
  { subst m'. destruct sh as [|k|k] eqn:Esh.
    - fold d1. lia.
    - rewrite Zdigits2_shiftl by lia. fold d1.
      split; [apply Z.shiftl_nonneg; lia | lia].
    - lia. }
  destruct Hm' as [Hm'0 Hm'd]. clearbody m'.
  pose proof (Z.div_eucl_eq m' 7036874417766400 ltac:(lia)) as Heq.
  pose proof (Z.mod_pos_bound m' 7036874417766400 ltac:(lia)) as Hmod.
  unfold Z.modulo in Hmod.
  destruct (Z.div_eucl m' 7036874417766400) as [q r].
  assert (Hq0 : 0 <= q) by nia.
  assert (Hqd : Zdigits2 q <= Z.max 0 (d1 + sh - 52)).
  { assert (Hle : q <= Z.shiftr m' 52).
    { rewrite Z.shiftr_div_pow2 by lia.
      apply Z.div_le_lower_bound; [reflexivity|].
      change (2 ^ 52) with 4503599627370496. nia. }
    pose proof (Zdigits2_mono q (Z.shiftr m' 52) Hq0 Hle).
    pose proof (Zdigits2_shiftr m' 52 Hm'0 ltac:(lia)). lia. }
  rewrite xorb_false_r.
  apply binary_round_aux_bound; subst sh e'; lia.
Qed.

(** The quotient [p / 100] for a finite [p]. *)
Lemma div_100_finite (p : float) :
  match Prim2SF p with
  | S754_zero s => Prim2SF (p / 100) = S754_zero s
  | S754_finite s m e =>
    match Prim2SF (p / 100) with
    | S754_zero s' => s' = s
    | S754_finite s' _ e' => s' = s /\ e' <= Z.max (-1074) (Zdigits2 (Zpos m) + e - 58)
    | _ => False
    end
  | _ => True
  end.
Proof.
  pose proof (Prim2SF_valid p) as Hv.
  rewrite FloatAxioms.div_spec, Prim2SF_100. unfold SF64div.
  change FloatOps.prec with 53. change FloatOps.emax with 1024.
  destruct (Prim2SF p) as [s|s| |s m e]; try exact I.
  - simpl. rewrite xorb_false_r. reflexivity.
  - apply div_100_bound. exact Hv.
Qed.

Lemma leb_0_shape (p : float) :
  (0 <=? p)%float = true ->
  match Prim2SF p with
  | S754_zero _ => True
  | S754_finite s _ _ => s = false
  | S754_infinity s => s = false
  | S754_nan => False
  end.
Proof.
  rewrite FloatAxioms.leb_spec, Prim2SF_0. unfold SFleb, SFcompare.
  destruct (Prim2SF p) as [s|s| |s m e]; try (destruct s); try discriminate;
    intros _; try exact I; reflexivity.
Qed.

Lemma leb_100_shape (p : float) :
  (p <=? 100)%float = true ->
  match Prim2SF p with
  | S754_finite false _ e => e <= -46
  | S754_infinity false => False
  | S754_nan => False
  | _ => True
  end.
Proof.
  rewrite FloatAxioms.leb_spec, Prim2SF_100. unfold hundred, SFleb, SFcompare.
  destruct (Prim2SF p) as [s|s| |s m e]; try (destruct s); try discriminate;
    try (intros _; exact I).
  destruct (Z.compare_spec e (-46)); try discriminate; intros _; lia.
Qed.

(** The index [p/100 * (n-1)] for a rank [p] in [[0,100]]: a zero or a
    positive finite number. *)
Lemma index_shape (p : float) (n : int) :
  (0 <=? p)%float = true -> (p <=? 100)%float = true ->
  match Prim2SF ((p / 100) * of_uint63 n) with
  | S754_zero _ => True
  | S754_finite s _ _ => s = false
  | _ => False
  end.
Proof.
  intros H0 H100.
  pose proof (leb_0_shape p H0) as S0. pose proof (leb_100_shape p H100) as S100.
  pose proof (div_100_finite p) as Hq.
  pose proof (Prim2SF_valid p) as Hvp.
  pose proof (Prim2SF_valid (p / 100)) as Hvq.
  pose proof (Prim2SF_valid (of_uint63 n)) as Hvm.
  pose proof (of_uint63_small n) as Hm.
  rewrite FloatAxioms.mul_spec. unfold SF64mul.
  change FloatOps.prec with 53. change FloatOps.emax with 1024.
  destruct (Prim2SF p) as [s|s| |s m e].
  - rewrite Hq.
    destruct (Prim2SF (of_uint63 n)) as [s'|s'| |s' m' e']; try contradiction; exact I.
  - subst s. contradiction.
  - contradiction.
  - subst s. destruct (bounded_digits m e Hvp) as [Hdp Hep].
    destruct (Prim2SF (p / 100)) as [sq|sq| |sq mq eq]; try contradiction.
    + destruct (Prim2SF (of_uint63 n)) as [s'|s'| |s' m' e']; try contradiction; exact I.
    + destruct Hq as [-> Heq].
      destruct (Prim2SF (of_uint63 n)) as [s'|s'| |s' m' e']; try contradiction;
        [exact I|].
      destruct Hm as [-> He'].
      destruct (bounded_digits mq eq Hvq) as [Hdq _].
      destruct (bounded_digits m' e' Hvm) as [Hdm _].
      pose proof (Zdigits2_mul mq m') as Hmul.
      pose proof (binary_round_aux_bound false (Zpos (mq * m')) (eq + e') loc_Exact 14
                    ltac:(lia) ltac:(lia) ltac:(lia) ltac:(lia) ltac:(lia)) as Hr.
      simpl SFmul.
      destruct (binary_round_aux 53 1024 false (Zpos (mq * m')) (eq + e') loc_Exact);
        try contradiction; [exact I | exact (proj1 Hr)].
Qed.


(** [int()] and [floor] agree on a zero and on a positive number. *)
Lemma int_of_float_floor (x : float) :
  match Prim2SF x with
  | S754_zero _ => True
  | S754_finite s _ _ => s = false
  | _ => False
  end ->
  int_of_float x = Some (floor_of_float x) /\ 0 <= floor_of_float x.
Proof.
  unfold int_of_float, floor_of_float.
  destruct (Prim2SF x) as [s|s| |s m e]; try contradiction.
  - intros _. split; [reflexivity | lia].
  - intros ->. destruct e as [|k|k].
    + split; [f_equal; lia | lia].
    + split; [reflexivity | lia].
    + split; [reflexivity|]. apply Z.div_pos; [lia | apply Z.pow_pos_nonneg; lia].
Qed.

Lemma float_of_int_nonneg (k : Z) : 0 <= k -> exists n, float_of_int k = of_uint63 n.
Proof.
  intros Hk. destruct k as [|q|q]; [eexists; reflexivity | eexists; reflexivity | lia].
Qed.

Lemma finite_shape (p : float) :
  is_finite p = true ->
  match Prim2SF p with
  | S754_zero _ | S754_finite _ _ _ => True
  | _ => False
  end.
Proof.
  unfold is_finite, Prim2SF. intros H.
  apply negb_true_iff, orb_false_iff in H as [Hn Hi]. rewrite Hn, Hi.
  destruct (PrimFloat.is_zero p); [exact I|].
  destruct (FloatOps.Z.frexp p) as [r ex].
  destruct (shr_fexp _ _ _ _ _) as [sh e'].
  destruct (shr_m sh); exact I.
Qed.

(** The index of a one-element sample at a finite rank: a zero. *)
Lemma index_single (p : float) :
  is_finite p = true ->
  match Prim2SF ((p / 100) * float_of_int 0) with
  | S754_zero _ => True
  | _ => False
  end.
Proof.
  intros Hf. pose proof (finite_shape p Hf) as Hs.
  pose proof (div_100_finite p) as Hq.
  rewrite FloatAxioms.mul_spec. unfold SF64mul.
  change (Prim2SF (float_of_int 0)) with (S754_zero false).
  destruct (Prim2SF p) as [s|s| |s m e]; try contradiction.
  - rewrite Hq. exact I.
  - destruct (Prim2SF (p / 100)) as [sq|sq| |sq mq eq]; try contradiction; exact I.
Qed.

(** C1. On binary64 floats, as the code computes: for every sample and
    every rank [p] with [0 <= p <= 100], [_percentile] returns (raising
    nothing) the value of the linear-interpolation definition read in the
    same arithmetic - [int()] is the floor of the index, which is finite and
    not negative, [sorted_data[-1]] is the last element and both indices are
    in range.  The empty sample gives 0, a single-element sample gives its
    element for every finite [p] (for an infinite or NaN rank [int()]
    raises), and [_percentile([10,20,30,40], 50)] is 25.0; at rank 99 the
    same sample gives 39.699999999999996, the rounded value of the formula. *)
Theorem percentile_linear_interpolation :
  (forall (sample : list float) (p : float),
      (0 <=? p)%float = true -> (p <=? 100)%float = true ->
      _percentile_float sample p = Some (interpolation_spec sample p))
  /\ (forall p : float, _percentile_float [] p = Some 0%float)
  /\ (forall x p : float,
        is_finite p = true -> _percentile_float [x] p = Some x)
  /\ _percentile_float [10; 20; 30; 40]%float 50 = Some 25%float
  /\ _percentile_float [10; 20; 30; 40]%float 99 = Some 0x1.3d99999999999p+5%float
  /\ _percentile_float [7.5%float] infinity = None.
Proof.
  split; [|split; [reflexivity | split; [|split; [|split]; reflexivity]]].
  - intros sample p H0 H100.
    destruct sample as [|a l]; [reflexivity|].
    set (s := a :: l).
    assert (Hs : s <> []) by (subst s; congruence).
    unfold _percentile_float, interpolation_spec. fold s.
    set (n := Z.of_nat (List.length s)).
    assert (Hn : 1 <= n) by (subst n s; simpl List.length; lia).
    replace (n =? 0) with false by (symmetry; apply Z.eqb_neq; lia).
    cbv zeta.
    destruct (float_of_int_nonneg (n - 1) ltac:(lia)) as [k Hk]. rewrite Hk.
    destruct (int_of_float_floor _ (index_shape p k H0 H100)) as [Hint Hlo].
    rewrite Hint.
    set (lo := floor_of_float (p / 100 * of_uint63 k)) in *.
    replace (lo + 1 >=? n) with (n <=? lo + 1) by (rewrite Z.geb_leb; reflexivity).
    subst s. cbv iota. fold n.
    destruct (n <=? lo + 1) eqn:Hhi.
    + apply py_getitem_last. congruence.
    + apply Z.leb_gt in Hhi.
      rewrite (py_getitem_in_range _ lo 0%float) by (fold n; lia).
      rewrite (py_getitem_in_range _ (lo + 1) 0%float) by (fold n; lia).
      reflexivity.
  - intros x p Hf. unfold _percentile_float. cbv zeta.
    change (Z.of_nat (List.length [x]) =? 0) with false. cbv iota.
    change (Z.of_nat (List.length [x]) - 1) with 0.
    pose proof (index_single p Hf) as Hi.
    unfold int_of_float.
    destruct (Prim2SF (p / 100 * float_of_int 0)); try contradiction.
    reflexivity.
Qed.

(** The rank hypotheses of C1 are satisfiable: rank 99 of a four-element
    sample. *)
Lemma percentile_linear_interpolation_witness :
  _percentile_float [10; 20; 30; 40]%float 99
  = Some (interpolation_spec [10; 20; 30; 40]%float 99).
Proof.
  apply (proj1 percentile_linear_interpolation); reflexivity.
Defined.

End Percentile.

(* ===================================================================== *)
(** * Fingerprinter ([silk/utils/n_plus_one.py], [fingerprint_query])     *)
(* ===================================================================== *)

Module Fingerprint.

Local Open Scope char_scope.
Local Open Scope nat_scope.

(** ** Character classes

    The classes [re] and [str] use on the code points below 128: [\s] and
    [str.strip] take 9-13 and 28-32 as whitespace, [\d] the ten digits, [\w]
    letters, digits and the underscore; [str.lower] maps A-Z to a-z.  The
    texts of the model are ASCII: a character from 128 on is in no class
    and has no case. *)

Definition code_in (lo hi : nat) (c : ascii) : bool :=
  (lo <=? nat_of_ascii c) && (nat_of_ascii c <=? hi).

Definition is_space (c : ascii) : bool := code_in 9 13 c || code_in 28 32 c.
Definition is_digit (c : ascii) : bool := code_in 48 57 c.
Definition is_upper (c : ascii) : bool := code_in 65 90 c.
Definition is_lower (c : ascii) : bool := code_in 97 122 c.
Definition is_word (c : ascii) : bool :=
  is_digit c || is_upper c || is_lower c || Ascii.eqb c "_".
Definition is_quote (c : ascii) : bool := Ascii.eqb c "'".
Definition not_quote (c : ascii) : bool := negb (is_quote c).

Definition lower_char (c : ascii) : ascii :=
  if is_upper c then ascii_of_nat (nat_of_ascii c + 32) else c.

(** The text is ASCII: every code point is below 128. *)
Definition is_ascii (c : ascii) : bool := nat_of_ascii c <? 128.
Definition ascii_text (s : list ascii) : bool := forallb is_ascii s.

(** The double quote, by its code (34). *)
Definition dquote : ascii := "034".

(** ** [re.sub] for a pattern that matches no empty string

    [re.sub] scans from the left; where the pattern matches it writes the
    replacement and goes on after the match, elsewhere it copies the
    character.  A [matcher] gives the length of the match that starts at the
    current position, from the character before it (for [\b]) and the text
    from it on.  [skip] counts the characters of the current match still to
    pass over. *)

Definition matcher : Type := option ascii -> list ascii -> option nat.

Fixpoint re_sub (m : matcher) (repl : list ascii) (skip : nat)
  (prev : option ascii) (s : list ascii) : list ascii :=
  match s with
  | [] => []
  | c :: r =>
    match skip with
    | S k => re_sub m repl k (Some c) r
    | O =>
      match m prev s with
      | Some (S k) => repl ++ re_sub m repl k (Some c) r
      | _ => c :: re_sub m repl 0 (Some c) r
      end
    end
  end.

(** Length of the longest prefix whose characters satisfy [p] (a greedy
    [p*]). *)
Fixpoint span (p : ascii -> bool) (s : list ascii) : nat :=
  match s with
  | c :: r => if p c then S (span p r) else 0
  | [] => 0
  end.

(** The pattern ['[^']*']: a quote, the characters up to the next quote,
    and that quote. *)
Definition _RE_STRINGS : matcher := fun _ s =>
  match s with
  | c :: r =>
    if is_quote c then
      let k := span not_quote r in
      match nth_error r k with
      | Some _ => Some (2 + k)
      | None => None
      end
    else None
  | [] => None
  end.

Definition is_word_at (o : option ascii) : bool :=
  match o with Some c => is_word c | None => false end.

(** [\b]: exactly one of the two neighbours is a word character. *)
Definition word_boundary (before after : option ascii) : bool :=
  xorb (is_word_at before) (is_word_at after).

(** The pattern [\b\d+\b]: the longest run of digits, with a word boundary
    on each side (a shorter run ends between two digits, where there is no
    boundary, so backtracking finds nothing more). *)
Definition _RE_NUMBERS : matcher := fun prev s =>
  let k := span is_digit s in
  if (0 <? k) && word_boundary prev (nth_error s 0)
     && word_boundary (nth_error s (k - 1)) (nth_error s k)
  then Some k else None.

(** The pattern [\s+]: the longest run of whitespace. *)
Definition _RE_WHITESPACE : matcher := fun _ s =>
  let k := span is_space s in
  if 0 <? k then Some k else None.

(** [str.strip()] and [str.lower()]. *)
Fixpoint lstrip (s : list ascii) : list ascii :=
  match s with
  | c :: r => if is_space c then lstrip r else s
  | [] => []
  end.

Definition rstrip (s : list ascii) : list ascii := rev (lstrip (rev s)).
Definition strip (s : list ascii) : list ascii := rstrip (lstrip s).
Definition lower (s : list ascii) : list ascii := map lower_char s.

(** The source function.
<<
    s = _RE_STRINGS.sub('?', sql)
    s = _RE_NUMBERS.sub('?', s)
    return _RE_WHITESPACE.sub(' ', s).strip().lower()
>> *)
Definition fingerprint_chars (sql : list ascii) : list ascii :=
  let s := re_sub _RE_STRINGS ["?"] 0 None sql in
  let s := re_sub _RE_NUMBERS ["?"] 0 None s in
  lower (strip (re_sub _RE_WHITESPACE [" "] 0 None s)).

Definition fingerprint_query (sql : string) : string :=
  string_of_list_ascii (fingerprint_chars (list_ascii_of_string sql)).

Definition dq : string := String dquote EmptyString.


(** ** SQL text as a sequence of lexical pieces

    The vocabulary of the statement "two texts differ only in literal
    values, whitespace and letter case": a text is the concatenation of
    pieces, each a single-quoted literal, a standalone integer, a run of
    whitespace, a word (letters, digits, underscores, not all digits), or one
    other character. *)

Inductive token : Type :=
| TLit (contents : list ascii)
| TInt (digits : list ascii)
| TSpace (blanks : list ascii)
| TWord (letters : list ascii)
| TPunct (c : ascii).

Definition render_token (t : token) : list ascii :=
  match t with
  | TLit a => "'" :: a ++ ["'"]
  | TInt d => d
  | TSpace w => w
  | TWord w => w
  | TPunct c => [c]
  end.

Definition render (ts : list token) : list ascii :=
  concat (map render_token ts).

Definition not_digit (c : ascii) : bool := negb (is_digit c).

Definition nonempty {A : Type} (l : list A) : bool :=
  match l with [] => false | _ => true end.

(** Each piece is what its constructor says.  A literal holds no quote; the
    characters outside the literals are no quotes either. *)
Definition token_ok (t : token) : bool :=
  match t with
  | TLit a => forallb not_quote a
  | TInt d => nonempty d && forallb is_digit d
  | TSpace w => nonempty w && forallb is_space w
  | TWord w => forallb is_word w && existsb not_digit w
  | TPunct c => negb (is_word c) && negb (is_space c) && negb (is_quote c)
  end.

Definition is_int (t : token) : bool :=
  match t with TInt _ => true | _ => false end.

Definition wordlike (t : token) : bool :=
  match t with TInt _ | TWord _ => true | _ => false end.

(** An integer is standalone: no word and no other integer touches it. *)
Fixpoint standalone (ts : list token) : bool :=
  match ts with
  | t :: (t' :: _) as r =>
    negb ((is_int t && wordlike t') || (wordlike t && is_int t'))
    && standalone r
  | _ => true
  end.

Definition well_formed (ts : list token) : bool :=
  forallb token_ok ts && standalone ts.

(** Two pieces of the same shape: literals, integers and whitespace runs
    whatever they hold, words equal up to letter case, other characters
    equal. *)
Definition same_shape (t1 t2 : token) : Prop :=
  match t1, t2 with
  | TLit _, TLit _ => True
  | TInt _, TInt _ => True
  | TSpace _, TSpace _ => True
  | TWord w1, TWord w2 => lower w1 = lower w2
  | TPunct c1, TPunct c2 => c1 = c2
  | _, _ => False
  end.

Definition text (ts : list token) : string := string_of_list_ascii (render ts).

(** The text after the literal pass, after the number pass, and with each
    whitespace run written as one blank. *)
Definition render1_token (t : token) : list ascii :=
  match t with
  | TLit _ => ["?"]
  | _ => render_token t
  end.

Definition render2_token (t : token) : list ascii :=
  match t with
  | TLit _ | TInt _ => ["?"]
  | _ => render_token t
  end.

Definition render3_token (t : token) : list ascii :=
  match t with
  | TLit _ | TInt _ => ["?"]
  | TSpace _ => [" "]
  | _ => render_token t
  end.

(** [seg] occurs in [s] as a contiguous segment. *)
Fixpoint is_prefix (seg s : list ascii) : bool :=
  match seg, s with
  | [], _ => true
  | a :: seg', b :: s' => Ascii.eqb a b && is_prefix seg' s'
  | _ :: _, [] => false
  end.

Fixpoint occurs (seg s : list ascii) : bool :=
  is_prefix seg s ||
  match s with
  | [] => false
  | _ :: s' => occurs seg s'
  end.

Definition count_quotes (s : list ascii) : nat :=
  List.length (List.filter is_quote s).

(** ** One-pass scanners

    Each substitution written as a left-to-right scan with a one-bit (or
    two-bit) state.  They are proved equal to [re_sub] on the three patterns
    below and carry the proofs of the later properties. *)

(** [in_lit]: inside a matched literal, before its closing quote. *)
Fixpoint scan_strings (in_lit : bool) (s : list ascii) : list ascii :=
  match s with
  | [] => []
  | c :: r =>
    if in_lit then scan_strings (negb (is_quote c)) r
    else if is_quote c && existsb is_quote r then "?" :: scan_strings true r
    else c :: scan_strings false r
  end.

(** After the leading digits of [r] comes no word character. *)
Fixpoint run_end (r : list ascii) : bool :=
  match r with
  | [] => true
  | c :: r' => if is_digit c then run_end r' else negb (is_word c)
  end.

(** [skip]: inside a matched run of digits; [prevw]: the character before
    is a word character. *)
Fixpoint scan_numbers (skip prevw : bool) (s : list ascii) : list ascii :=
  match s with
  | [] => []
  | c :: r =>
    if skip && is_digit c then scan_numbers true true r
    else if is_digit c && negb prevw && run_end r
         then "?" :: scan_numbers true true r
    else c :: scan_numbers false (is_word c) r
  end.

(** [in_run]: inside a run of whitespace already replaced. *)
Fixpoint scan_whitespace (in_run : bool) (s : list ascii) : list ascii :=
  match s with
  | [] => []
  | c :: r =>
    if is_space c
    then (if in_run then scan_whitespace true r else " " :: scan_whitespace true r)
    else c :: scan_whitespace false r
  end.

(** The text is empty or starts with a character that is no word character. *)
Definition head_nonword (s : list ascii) : bool :=
  match s with [] => true | c :: _ => negb (is_word c) end.

(** State of the whitespace scanner after the text [s]. *)
Fixpoint ws_state (b : bool) (s : list ascii) : bool :=
  match s with
  | [] => b
  | c :: r => ws_state (is_space c) r
  end.

(** The characters of a string literal. *)
Definition chars (s : string) : list ascii := list_ascii_of_string s.

(** The first pair of texts of the design document, piece by piece. *)
Definition example_id_5 : list token :=
  [TWord (chars "SELECT"); TSpace (chars " "); TPunct "*";
   TSpace (chars " "); TWord (chars "FROM"); TSpace (chars " ");
   TPunct dquote; TWord (chars "t"); TPunct dquote; TSpace (chars " ");
   TWord (chars "WHERE"); TSpace (chars " "); TWord (chars "id");
   TSpace (chars " "); TPunct "="; TSpace (chars " "); TInt (chars "5")].

Definition example_id_42 : list token :=
  [TWord (chars "select"); TSpace (chars "  "); TPunct "*";
   TSpace (chars " "); TWord (chars "from"); TSpace (chars " ");
   TPunct dquote; TWord (chars "t"); TPunct dquote; TSpace (chars " ");
   TWord (chars "where"); TSpace (chars " "); TWord (chars "id");
   TSpace (chars " "); TPunct "="; TSpace (chars " "); TInt (chars "42")].

(** ** Facts on the character classes *)

Ltac ascii_cases c :=
  destruct c as [[|] [|] [|] [|] [|] [|] [|] [|]];
  vm_compute; try reflexivity; try discriminate; try (intros; discriminate);
  try (intros; reflexivity).

Lemma is_space_lower c : is_space (lower_char c) = is_space c.
Proof. ascii_cases c. Qed.

Lemma digit_is_word c : is_digit c = true -> is_word c = true.
Proof. ascii_cases c. Qed.

Lemma space_not_word c : is_space c = true -> is_word c = false.
Proof. ascii_cases c. Qed.

Lemma space_not_quote c : is_space c = true -> is_quote c = false.
Proof. ascii_cases c. Qed.

Lemma word_not_quote c : is_word c = true -> is_quote c = false.
Proof. ascii_cases c. Qed.

Lemma word_not_space c : is_word c = true -> is_space c = false.
Proof. ascii_cases c. Qed.

Lemma digit_not_upper c : is_digit c = true -> is_upper c = false.
Proof. ascii_cases c. Qed.

Lemma lower_char_fixed c : is_upper c = false -> lower_char c = c.
Proof. unfold lower_char. intros ->. reflexivity. Qed.

(** ** The scanners are [re_sub] on the three patterns *)

Lemma span_not_quote_nth (r : list ascii) :
  match nth_error r (span not_quote r) with
  | Some _ => existsb is_quote r = true
  | None => existsb is_quote r = false
  end.
Proof.
  induction r as [|c r IH]; [reflexivity|].
  simpl. unfold not_quote at 1. destruct (is_quote c); simpl; [reflexivity | exact IH].
Qed.

Lemma re_sub_strings_scan (s : list ascii) :
  (forall prev, re_sub _RE_STRINGS ["?"] 0 prev s = scan_strings false s)
  /\ (existsb is_quote s = true ->
      forall prev,
        re_sub _RE_STRINGS ["?"] (S (span not_quote s)) prev s
        = scan_strings true s).
Proof.
  induction s as [|c r [IH0 IH1]]; [split; [reflexivity | discriminate]|].
  split.
  - intros prev. simpl. destruct (is_quote c) eqn:Hc; simpl.
    + pose proof (span_not_quote_nth r) as Hn.
      destruct (nth_error r (span not_quote r)).
      * rewrite Hn. simpl. f_equal. apply IH1. exact Hn.
      * rewrite Hn. f_equal. apply IH0.
    + f_equal. apply IH0.
  - intros Hex prev. simpl in Hex. simpl. unfold not_quote at 1.
    destruct (is_quote c) eqn:Hc; simpl.
    + apply IH0.
    + apply IH1. exact Hex.
Qed.

Lemma run_end_span (r : list ascii) :
  run_end r = negb (is_word_at (nth_error r (span is_digit r))).
Proof.
  induction r as [|c r IH]; [reflexivity|].
  simpl. destruct (is_digit c); [exact IH | reflexivity].
Qed.

Lemma digit_run_last (r : list ascii) :
  forall c, is_digit c = true ->
  is_word_at (nth_error (c :: r) (span is_digit r)) = true.
Proof.
  induction r as [|d r IH]; intros c Hc; simpl.
  - apply digit_is_word, Hc.
  - destruct (is_digit d) eqn:Hd; simpl.
    + apply (IH d Hd).
    + apply digit_is_word, Hc.
Qed.

Lemma match_numbers_digit prev c r :
  is_digit c = true ->
  _RE_NUMBERS prev (c :: r)
  = if negb (is_word_at prev) && run_end r
    then Some (S (span is_digit r)) else None.
Proof.
  intros Hc. unfold _RE_NUMBERS. simpl span. rewrite Hc.
  change (0 <? S (span is_digit r)) with true.
  replace (S (span is_digit r) - 1) with (span is_digit r) by lia.
  unfold word_boundary.
  rewrite (digit_run_last r c Hc).
  change (nth_error (c :: r) (S (span is_digit r)))
    with (nth_error r (span is_digit r)).
  rewrite run_end_span. simpl is_word_at.
  rewrite (digit_is_word c Hc).
  destruct (is_word_at prev), (is_word_at (nth_error r (span is_digit r)));
    reflexivity.
Qed.

Lemma match_numbers_other prev c r :
  is_digit c = false -> _RE_NUMBERS prev (c :: r) = None.
Proof. intros Hc. unfold _RE_NUMBERS. simpl span. rewrite Hc. reflexivity. Qed.

Lemma re_sub_numbers_scan (s : list ascii) :
  (forall prev,
      re_sub _RE_NUMBERS ["?"] 0 prev s
      = scan_numbers false (is_word_at prev) s)
  /\ (forall prev,
      is_word_at prev = true ->
      re_sub _RE_NUMBERS ["?"] (span is_digit s) prev s
      = scan_numbers true true s).
Proof.
  induction s as [|c r [IH0 IH1]]; [split; reflexivity|].
  assert (H0 : forall prev, re_sub _RE_NUMBERS ["?"] 0 prev (c :: r)
                            = scan_numbers false (is_word_at prev) (c :: r)).
  { intros prev. cbn [re_sub scan_numbers andb].
    destruct (is_digit c) eqn:Hc.
    - rewrite (match_numbers_digit prev c r Hc). cbn [andb].
      destruct (negb (is_word_at prev) && run_end r).
      + simpl. f_equal. apply IH1. simpl. apply digit_is_word, Hc.
      + f_equal. apply IH0.
    - rewrite (match_numbers_other prev c r Hc). cbn [andb]. f_equal. apply IH0. }
  split; [exact H0|].
  intros prev Hp. cbn [span].
  destruct (is_digit c) eqn:Hc.
  - cbn [re_sub scan_numbers andb]. rewrite Hc. apply IH1.
    simpl. apply digit_is_word, Hc.
  - rewrite H0, Hp. cbn [scan_numbers andb]. rewrite Hc. reflexivity.
Qed.

Lemma re_sub_whitespace_scan (s : list ascii) :
  (forall prev, re_sub _RE_WHITESPACE [" "] 0 prev s = scan_whitespace false s)
  /\ (forall prev,
      re_sub _RE_WHITESPACE [" "] (span is_space s) prev s
      = scan_whitespace true s).
Proof.
  induction s as [|c r [IH0 IH1]]; [split; reflexivity|].
  assert (H0 : forall prev, re_sub _RE_WHITESPACE [" "] 0 prev (c :: r)
                            = scan_whitespace false (c :: r)).
  { intros prev. cbn [re_sub scan_whitespace]. unfold _RE_WHITESPACE.
    cbn [span]. destruct (is_space c) eqn:Hc.
    - change (0 <? S (span is_space r)) with true. cbv iota.
      simpl. f_equal. apply IH1.
    - change (0 <? 0) with false. cbv iota. f_equal. apply IH0. }
  split; [exact H0|].
  intros prev. cbn [span]. destruct (is_space c) eqn:Hc.
  - cbn [re_sub scan_whitespace]. rewrite Hc. apply IH1.
  - rewrite H0. cbn [scan_whitespace]. rewrite Hc. reflexivity.
Qed.

(** [fingerprint_chars] through the scanners. *)
Lemma fingerprint_chars_scan (sql : list ascii) :
  fingerprint_chars sql
  = lower (strip (scan_whitespace false
                    (scan_numbers false false (scan_strings false sql)))).
Proof.
  unfold fingerprint_chars.
  rewrite (proj1 (re_sub_strings_scan sql)).
  rewrite (proj1 (re_sub_numbers_scan _)).
  rewrite (proj1 (re_sub_whitespace_scan _)).
  reflexivity.
Qed.

(** ** The three passes on a well-formed sequence of pieces *)

Lemma word_false_not_digit c : is_word c = false -> is_digit c = false.
Proof.
  intros H. destruct (is_digit c) eqn:Hd; [|reflexivity].
  rewrite (digit_is_word c Hd) in H. discriminate.
Qed.

Lemma space_not_digit c : is_space c = true -> is_digit c = false.
Proof. intros H. apply word_false_not_digit, space_not_word, H. Qed.

Lemma scan_strings_plain (w rest : list ascii) :
  forallb not_quote w = true ->
  scan_strings false (w ++ rest) = w ++ scan_strings false rest.
Proof.
  induction w as [|c w IH]; intros H; [reflexivity|].
  simpl in H. apply andb_true_iff in H as [Hc Hw].
  unfold not_quote in Hc. apply negb_true_iff in Hc.
  simpl. rewrite Hc. simpl. f_equal. apply IH, Hw.
Qed.

Lemma scan_strings_inside (a rest : list ascii) :
  forallb not_quote a = true ->
  scan_strings true (a ++ "'" :: rest) = scan_strings false rest.
Proof.
  induction a as [|c a IH]; intros H; [reflexivity|].
  simpl in H. apply andb_true_iff in H as [Hc Hw].
  unfold not_quote in Hc. apply negb_true_iff in Hc.
  simpl. rewrite Hc. simpl. apply IH, Hw.
Qed.

Lemma existsb_quote_closing (a rest : list ascii) :
  existsb is_quote (a ++ "'" :: rest) = true.
Proof. rewrite existsb_app. simpl. apply orb_true_r. Qed.

Lemma forallb_impl {A : Type} (p q : A -> bool) (l : list A) :
  (forall x, p x = true -> q x = true) ->
  forallb p l = true -> forallb q l = true.
Proof.
  intros Hpq. induction l as [|x l IH]; [reflexivity|]. simpl.
  intros H. apply andb_true_iff in H as [Hx Hl].
  rewrite (Hpq x Hx), (IH Hl). reflexivity.
Qed.

Lemma token_plain (t : token) :
  token_ok t = true ->
  match t with
  | TLit _ => True
  | _ => forallb not_quote (render_token t) = true
  end.
Proof.
  intros Hok. destruct t as [a|d|w|w|c]; simpl in *; [exact I| | | |].
  - apply andb_true_iff in Hok as [_ Hd].
    apply (forallb_impl is_digit); [|exact Hd].
    intros x Hx. unfold not_quote. rewrite (word_not_quote x (digit_is_word x Hx)).
    reflexivity.
  - apply andb_true_iff in Hok as [_ Hd].
    apply (forallb_impl is_space); [|exact Hd].
    intros x Hx. unfold not_quote. rewrite (space_not_quote x Hx). reflexivity.
  - apply andb_true_iff in Hok as [Hd _].
    apply (forallb_impl is_word); [|exact Hd].
    intros x Hx. unfold not_quote. rewrite (word_not_quote x Hx). reflexivity.
  - apply andb_true_iff in Hok as [_ Hq]. unfold not_quote. rewrite Hq. reflexivity.
Qed.

Lemma strings_pass (ts : list token) :
  forallb token_ok ts = true ->
  scan_strings false (render ts) = concat (map render1_token ts).
Proof.
  induction ts as [|t ts IH]; intros H; [reflexivity|].
  simpl in H. apply andb_true_iff in H as [Ht Hts].
  unfold render. simpl. fold (render ts).
  pose proof (token_plain t Ht) as Hp.
  destruct t as [a|d|w|w|c]; simpl in Hp |- *.
  - rewrite <- app_assoc. simpl. rewrite existsb_quote_closing. simpl.
    f_equal. rewrite scan_strings_inside by exact Ht. apply IH, Hts.
  - rewrite scan_strings_plain by exact Hp. f_equal. apply IH, Hts.
  - rewrite scan_strings_plain by exact Hp. f_equal. apply IH, Hts.
  - rewrite scan_strings_plain by exact Hp. f_equal. apply IH, Hts.
  - apply andb_true_iff in Hp as [Hc _]. unfold not_quote in Hc.
    apply negb_true_iff in Hc. rewrite Hc. simpl. f_equal. apply IH, Hts.
Qed.

(** The number pass. *)

Lemma scan_numbers_other (pw : bool) (c : ascii) (rest : list ascii) :
  is_digit c = false ->
  scan_numbers false pw (c :: rest) = c :: scan_numbers false (is_word c) rest.
Proof. intros Hc. simpl. rewrite Hc. reflexivity. Qed.

Lemma scan_numbers_spaces (w rest : list ascii) :
  forallb is_space w = true -> nonempty w = true ->
  forall pw, scan_numbers false pw (w ++ rest) = w ++ scan_numbers false false rest.
Proof.
  induction w as [|c w IH]; intros H Hne pw; [discriminate|].
  simpl in H. apply andb_true_iff in H as [Hc Hw].
  change ((c :: w) ++ rest) with (c :: (w ++ rest)).
  rewrite scan_numbers_other by (apply space_not_digit, Hc).
  rewrite (space_not_word c Hc).
  destruct w as [|c' w']; [reflexivity|].
  simpl app at 2. f_equal. apply IH; [exact Hw | reflexivity].
Qed.

Lemma scan_numbers_in_word (w rest : list ascii) :
  forallb is_word w = true ->
  scan_numbers false true (w ++ rest) = w ++ scan_numbers false true rest.
Proof.
  induction w as [|c w IH]; intros H; [reflexivity|].
  simpl in H. apply andb_true_iff in H as [Hc Hw].
  simpl. rewrite andb_false_r. simpl. rewrite Hc. f_equal. apply IH, Hw.
Qed.

Lemma run_end_word (w rest : list ascii) :
  forallb is_word w = true -> existsb not_digit w = true ->
  run_end (w ++ rest) = false.
Proof.
  induction w as [|c w IH]; intros H He; [discriminate|].
  simpl in H, He. apply andb_true_iff in H as [Hc Hw].
  simpl. unfold not_digit in He at 1. destruct (is_digit c); simpl in He.
  - apply IH; assumption.
  - rewrite Hc. reflexivity.
Qed.

Lemma scan_numbers_word (w rest : list ascii) :
  forallb is_word w = true -> existsb not_digit w = true ->
  forall pw, scan_numbers false pw (w ++ rest) = w ++ scan_numbers false true rest.
Proof.
  intros H He pw. destruct w as [|c w]; [discriminate|].
  simpl in H. apply andb_true_iff in H as [Hc Hw].
  change ((c :: w) ++ rest) with (c :: (w ++ rest)).
  cbn [scan_numbers andb].
  assert (Hno : is_digit c && negb pw && run_end (w ++ rest) = false).
  { destruct (is_digit c) eqn:Hd; [|reflexivity].
    simpl in He. unfold not_digit in He at 1. rewrite Hd in He. simpl in He.
    rewrite (run_end_word w rest Hw He). apply andb_false_r. }
  rewrite Hno, Hc. simpl app. f_equal. apply scan_numbers_in_word, Hw.
Qed.

Lemma run_end_digits (d rest : list ascii) :
  forallb is_digit d = true -> run_end (d ++ rest) = run_end rest.
Proof.
  induction d as [|c d IH]; intros H; [reflexivity|].
  simpl in H. apply andb_true_iff in H as [Hc Hd].
  simpl. rewrite Hc. apply IH, Hd.
Qed.

Lemma scan_numbers_skip (d rest : list ascii) :
  forallb is_digit d = true ->
  scan_numbers true true (d ++ rest) = scan_numbers true true rest.
Proof.
  induction d as [|c d IH]; intros H; [reflexivity|].
  simpl in H. apply andb_true_iff in H as [Hc Hd].
  simpl. rewrite Hc. apply IH, Hd.
Qed.

Lemma run_end_head_nonword (s : list ascii) :
  head_nonword s = true -> run_end s = true.
Proof.
  destruct s as [|c s]; [reflexivity|]. simpl. intros H.
  apply negb_true_iff in H. rewrite (word_false_not_digit c H), H. reflexivity.
Qed.

Lemma scan_numbers_leave_skip (s : list ascii) :
  head_nonword s = true -> scan_numbers true true s = scan_numbers false true s.
Proof.
  destruct s as [|c s]; [reflexivity|]. simpl. intros H.
  apply negb_true_iff in H. rewrite (word_false_not_digit c H). reflexivity.
Qed.

Lemma head_nonword_next (ts : list token) :
  forallb token_ok ts = true ->
  match ts with t :: _ => wordlike t = false | [] => True end ->
  head_nonword (concat (map render1_token ts)) = true.
Proof.
  destruct ts as [|t ts]; [reflexivity|]. simpl.
  intros H Hw. apply andb_true_iff in H as [Ht _].
  destruct t as [a|d|w|w|c]; simpl in *; try discriminate.
  - reflexivity.
  - destruct w as [|x w]; [discriminate|]. simpl in Ht.
    apply andb_true_iff in Ht as [Hx _]. simpl.
    rewrite (space_not_word x Hx). reflexivity.
  - apply andb_true_iff in Ht as [Ht _]. apply andb_true_iff in Ht as [Ht _].
    exact Ht.
Qed.

Lemma numbers_pass (ts : list token) :
  forallb token_ok ts = true -> standalone ts = true ->
  forall pw,
    (pw = true -> match ts with t :: _ => is_int t = false | [] => True end) ->
    scan_numbers false pw (concat (map render1_token ts))
    = concat (map render2_token ts).
Proof.
  induction ts as [|t ts IH]; intros H Hs pw Hpw; [reflexivity|].
  simpl in H. apply andb_true_iff in H as [Ht Hts].
  assert (Hs' : standalone ts = true).
  { simpl in Hs. destruct ts; [reflexivity|].
    apply andb_true_iff in Hs as [_ Hs]. exact Hs. }
  assert (Hadj : match ts with
                 | t' :: _ => (is_int t && wordlike t') || (wordlike t && is_int t') = false
                 | [] => True
                 end).
  { simpl in Hs. destruct ts; [exact I|].
    apply andb_true_iff in Hs as [Hs _]. apply negb_true_iff in Hs. exact Hs. }
  cbn [map concat].
  destruct t as [a|d|w|w|c]; cbn [render1_token render2_token render_token].
  - cbn [app]. rewrite scan_numbers_other by reflexivity. f_equal.
    apply IH; [exact Hts | exact Hs' | discriminate].
  - simpl in Ht. apply andb_true_iff in Ht as [Hne Hd].
    destruct d as [|x d]; [discriminate|].
    simpl in Hd. apply andb_true_iff in Hd as [Hx Hd].
    assert (Hpwf : pw = false).
    { destruct pw; [|reflexivity]. specialize (Hpw eq_refl). discriminate. }
    subst pw.
    assert (Hnext : head_nonword (concat (map render1_token ts)) = true).
    { apply head_nonword_next; [exact Hts|].
      destruct ts as [|t' ts']; [exact I|]. simpl in Hadj.
      apply orb_false_iff in Hadj as [Hadj _]. exact Hadj. }
    change ((x :: d) ++ concat (map render1_token ts))
      with (x :: (d ++ concat (map render1_token ts))).
    cbn [scan_numbers andb negb]. rewrite Hx.
    rewrite (run_end_digits d _ Hd), (run_end_head_nonword _ Hnext).
    cbn [andb app]. f_equal.
    rewrite (scan_numbers_skip d _ Hd), (scan_numbers_leave_skip _ Hnext).
    apply IH; [exact Hts | exact Hs' |].
    intros _. destruct ts as [|t' ts']; [exact I|]. simpl in Hadj.
    apply orb_false_iff in Hadj as [_ Hadj]. exact Hadj.
  - simpl in Ht. apply andb_true_iff in Ht as [Hne Hw].
    rewrite (scan_numbers_spaces w _ Hw Hne). f_equal.
    apply IH; [exact Hts | exact Hs' | discriminate].
  - simpl in Ht. apply andb_true_iff in Ht as [Hw He].
    rewrite (scan_numbers_word w _ Hw He). f_equal.
    apply IH; [exact Hts | exact Hs' |].
    intros _. destruct ts as [|t' ts']; [exact I|]. simpl in Hadj. exact Hadj.
  - simpl in Ht. apply andb_true_iff in Ht as [Ht _].
    apply andb_true_iff in Ht as [Hc _]. apply negb_true_iff in Hc.
    cbn [app]. rewrite scan_numbers_other by (apply word_false_not_digit, Hc).
    rewrite Hc. f_equal.
    apply IH; [exact Hts | exact Hs' | discriminate].
Qed.

(** The whitespace pass. *)

Lemma scan_whitespace_app (x y : list ascii) :
  forall b,
    scan_whitespace b (x ++ y)
    = scan_whitespace b x ++ scan_whitespace (ws_state b x) y.
Proof.
  induction x as [|c x IH]; intros b; [reflexivity|].
  simpl. destruct (is_space c); [destruct b|]; simpl; rewrite IH; reflexivity.
Qed.

Lemma scan_whitespace_run (w : list ascii) :
  forallb is_space w = true -> nonempty w = true ->
  forall b,
    scan_whitespace b w = scan_whitespace b [" "] /\ ws_state b w = true.
Proof.
  induction w as [|c w IH]; intros H Hne b; [discriminate|].
  simpl in H. apply andb_true_iff in H as [Hc Hw].
  destruct w as [|c' w'].
  - simpl. rewrite Hc. split; reflexivity.
  - destruct (IH Hw eq_refl true) as [IH1 IH2].
    split.
    + change (scan_whitespace b (c :: c' :: w'))
        with (if is_space c
              then (if b then scan_whitespace true (c' :: w')
                    else " " :: scan_whitespace true (c' :: w'))
              else c :: scan_whitespace false (c' :: w')).
      rewrite Hc, IH1. destruct b; reflexivity.
    + change (ws_state b (c :: c' :: w')) with (ws_state (is_space c) (c' :: w')).
      rewrite Hc. exact IH2.
Qed.

Lemma whitespace_pass (ts : list token) :
  forallb token_ok ts = true ->
  forall b,
    scan_whitespace b (concat (map render2_token ts))
    = scan_whitespace b (concat (map render3_token ts)).
Proof.
  induction ts as [|t ts IH]; intros H b; [reflexivity|].
  simpl in H. apply andb_true_iff in H as [Ht Hts].
  cbn [map concat]. rewrite !scan_whitespace_app.
  destruct t as [a|d|w|w|c]; cbn [render2_token render3_token render_token];
    try (rewrite (IH Hts); reflexivity).
  simpl in Ht. apply andb_true_iff in Ht as [Hne Hw].
  destruct (scan_whitespace_run w Hw Hne b) as [E1 E2].
  rewrite E1, E2, (IH Hts). reflexivity.
Qed.

(** [lower] commutes with the whitespace pass and with [strip]. *)

Lemma lower_scan_whitespace (s : list ascii) :
  forall b, lower (scan_whitespace b s) = scan_whitespace b (lower s).
Proof.
  induction s as [|c s IH]; intros b; [reflexivity|].
  simpl. rewrite is_space_lower.
  destruct (is_space c); [destruct b|]; simpl; rewrite IH; reflexivity.
Qed.

Lemma lower_lstrip (s : list ascii) : lower (lstrip s) = lstrip (lower s).
Proof.
  induction s as [|c s IH]; [reflexivity|].
  simpl. rewrite is_space_lower. destruct (is_space c); [exact IH | reflexivity].
Qed.

Lemma lower_strip (s : list ascii) : lower (strip s) = strip (lower s).
Proof.
  unfold strip, rstrip, lower.
  rewrite map_rev. fold (lower (lstrip (rev (lstrip s)))).
  rewrite lower_lstrip. unfold lower at 1. rewrite map_rev.
  fold (lower (lstrip s)). rewrite lower_lstrip. reflexivity.
Qed.

(** The fingerprint of a well-formed text, from its shape. *)
Lemma fingerprint_of_tokens (ts : list token) :
  well_formed ts = true ->
  fingerprint_chars (render ts)
  = strip (scan_whitespace false (lower (concat (map render3_token ts)))).
Proof.
  intros H. apply andb_true_iff in H as [Hok Hst].
  rewrite fingerprint_chars_scan.
  rewrite (strings_pass ts Hok).
  rewrite (numbers_pass ts Hok Hst false) by discriminate.
  rewrite (whitespace_pass ts Hok).
  rewrite lower_strip, lower_scan_whitespace. reflexivity.
Qed.

Lemma same_shape_lower (ts1 ts2 : list token) :
  Forall2 same_shape ts1 ts2 ->
  lower (concat (map render3_token ts1)) = lower (concat (map render3_token ts2)).
Proof.
  induction 1 as [|t1 t2 l1 l2 Ht Hl IH]; [reflexivity|].
  cbn [map concat]. unfold lower in *. rewrite !map_app, IH. f_equal.
  destruct t1, t2; simpl in Ht; try contradiction; try reflexivity.
  - exact Ht.
  - subst. reflexivity.
Qed.

Lemma list_ascii_roundtrip (l : list ascii) :
  list_ascii_of_string (string_of_list_ascii l) = l.
Proof. induction l as [|c l IH]; [reflexivity|]. simpl. rewrite IH. reflexivity. Qed.

(** ** C2: shape invariance *)

Local Open Scope string_scope.

(** C2, as stated, fails: two texts that differ only in the contents of a
    single-quoted literal, one of them holding an escaped (doubled) quote,
    have different fingerprints.  The pattern ['[^']*'] reads ['it''s'] as
    two literals. *)
Lemma fingerprint_literal_contents_counterexample :
  fingerprint_query "SELECT * FROM t WHERE name = 'it''s'"
    = "select * from t where name = ??"
  /\ fingerprint_query "SELECT * FROM t WHERE name = 'x'"
    = "select * from t where name = ?"
  /\ fingerprint_query "SELECT * FROM t WHERE name = 'it''s'"
     <> fingerprint_query "SELECT * FROM t WHERE name = 'x'".
Proof.
  split; [reflexivity|]. split; [reflexivity|].
  vm_compute. discriminate.
Qed.

(** C2 (amended). [fingerprint_query] is a function of its argument, and two
    well-formed ASCII texts of the same shape - they differ only in the
    contents of single-quoted literals that hold no quote, in the digits of
    standalone integers, in the characters of non-empty whitespace runs and
    in letter case - have the same fingerprint; so have the two pairs of
    texts of the design document. *)
Theorem fingerprint_shape_invariant :
  (forall sql1 sql2 : string,
      sql1 = sql2 -> fingerprint_query sql1 = fingerprint_query sql2)
  /\ (forall ts1 ts2 : list token,
      ascii_text (render ts1) = true -> ascii_text (render ts2) = true ->
      well_formed ts1 = true -> well_formed ts2 = true ->
      Forall2 same_shape ts1 ts2 ->
      fingerprint_query (text ts1) = fingerprint_query (text ts2))
  /\ fingerprint_query ("SELECT * FROM " ++ dq ++ "t" ++ dq ++ " WHERE id = 5")
     = fingerprint_query ("select * from " ++ dq ++ "t" ++ dq ++ " where id = 42")
  /\ fingerprint_query ("SELECT * FROM " ++ dq ++ "t" ++ dq ++ " WHERE id = 'x'")
     = fingerprint_query ("SELECT * FROM " ++ dq ++ "t" ++ dq ++ " WHERE id = 'y'").
Proof.
  split; [intros sql1 sql2 ->; reflexivity|].
  split; [|split; reflexivity].
  intros ts1 ts2 _ _ H1 H2 Hs.
  unfold fingerprint_query, text. rewrite !list_ascii_roundtrip.
  rewrite (fingerprint_of_tokens ts1 H1), (fingerprint_of_tokens ts2 H2).
  rewrite (same_shape_lower ts1 ts2 Hs). reflexivity.
Qed.

Lemma fingerprint_shape_invariant_witness :
  text example_id_5 = "SELECT * FROM " ++ dq ++ "t" ++ dq ++ " WHERE id = 5"
  /\ text example_id_42 = "select  * from " ++ dq ++ "t" ++ dq ++ " where id = 42"
  /\ fingerprint_query (text example_id_5) = fingerprint_query (text example_id_42).
Proof.
  split; [reflexivity|]. split; [reflexivity|].
  apply (proj1 (proj2 fingerprint_shape_invariant)).
  - reflexivity.
  - reflexivity.
  - reflexivity.
  - reflexivity.
  - repeat constructor.
Defined.

(** ** C8: double-quoted identifiers *)

Local Open Scope list_scope.

Lemma is_prefix_app (seg b : list ascii) : is_prefix seg (seg ++ b) = true.
Proof.
  induction seg as [|c seg IH]; [reflexivity|].
  simpl. rewrite Ascii.eqb_refl. exact IH.
Qed.

Lemma occurs_middle (a seg b : list ascii) : occurs seg (a ++ seg ++ b) = true.
Proof.
  induction a as [|c a IH].
  - simpl. destruct (seg ++ b) eqn:E; simpl;
      rewrite <- E, is_prefix_app; reflexivity.
  - simpl. rewrite IH. apply orb_true_r.
Qed.

Lemma scan_strings_balanced (pre x : list ascii) :
  forall b,
    Nat.even (count_quotes pre) = negb b ->
    exists pre', scan_strings b (pre ++ x) = pre' ++ scan_strings false x.
Proof.
  unfold count_quotes.
  induction pre as [|c pre IH]; intros b Hb.
  - destruct b; [discriminate|]. exists []. reflexivity.
  - simpl in Hb. destruct (is_quote c) eqn:Hc.
    + simpl List.length in Hb. rewrite Nat.even_succ, <- Nat.negb_even in Hb.
      destruct b; simpl in Hb.
      * destruct (IH false) as [pre' E].
        { apply negb_false_iff in Hb. exact Hb. }
        exists pre'. simpl. rewrite Hc. exact E.
      * destruct (IH true) as [pre' E].
        { apply negb_true_iff in Hb. exact Hb. }
        assert (Hex : existsb is_quote (pre ++ x) = true).
        { rewrite existsb_app. apply orb_true_iff. left.
          apply negb_true_iff in Hb.
          destruct (List.filter is_quote pre) as [|q l] eqn:Ef; [discriminate|].
          apply existsb_exists. exists q.
          assert (Hin : In q (List.filter is_quote pre)) by (rewrite Ef; left; reflexivity).
          apply filter_In in Hin. exact Hin. }
        exists ("?"%char :: pre'). simpl. rewrite Hc, Hex. simpl.
        f_equal. exact E.
    + destruct (IH b Hb) as [pre' E]. destruct b.
      * exists pre'. simpl. rewrite Hc. exact E.
      * exists (c :: pre'). simpl. rewrite Hc. simpl. f_equal. exact E.
Qed.

Lemma lstrip_keep (pre y : list ascii) :
  match y with c :: _ => is_space c = false | [] => False end ->
  exists pre', lstrip (pre ++ y) = pre' ++ y.
Proof.
  intros Hy. induction pre as [|x pre [pre' IH]].
  - exists []. destruct y as [|c y]; [contradiction|]. simpl. rewrite Hy. reflexivity.
  - simpl. destruct (is_space x).
    + exists pre'. exact IH.
    + exists (x :: pre). reflexivity.
Qed.

Lemma lower_plain (w : list ascii) :
  forallb (fun c => negb (is_upper c)) w = true -> lower w = w.
Proof.
  induction w as [|c w IH]; intros H; [reflexivity|].
  simpl in H. apply andb_true_iff in H as [Hc Hw]. apply negb_true_iff in Hc.
  simpl. rewrite (lower_char_fixed c Hc), (IH Hw). reflexivity.
Qed.

(** C8, as stated, fails: an identifier with an upper-case letter does not
    appear in the fingerprint as it was written; [lower()] rewrites it. *)
Lemma quoted_identifier_counterexample :
  occurs (chars (dq ++ "Name" ++ dq)%string)
         (chars ("SELECT " ++ dq ++ "Name" ++ dq ++ " FROM t")%string) = true
  /\ fingerprint_query ("SELECT " ++ dq ++ "Name" ++ dq ++ " FROM t")%string
     = ("select " ++ dq ++ "name" ++ dq ++ " from t")%string
  /\ occurs (chars (dq ++ "Name" ++ dq)%string)
            (chars (fingerprint_query
                      ("SELECT " ++ dq ++ "Name" ++ dq ++ " FROM t")%string))
     = false.
Proof. split; [|split]; reflexivity. Qed.

End Fingerprint.

(* ===================================================================== *)
(** * N+1 grouper ([silk/utils/n_plus_one.py], [detect_n_plus_one])       *)
(* ===================================================================== *)

Module NPlusOne.

Import Fingerprint.

Local Open Scope nat_scope.

(** A captured query: its primary key and its SQL text ([q.pk], [q.query]). *)
Record SQLQuery : Type := { pk : Z; query : string }.

Record NPlusOneGroup : Type := {
  fingerprint : string;
  queries : list SQLQuery;
  count : nat;
  representative : SQLQuery
}.

(** [NPlusOneGroup.__init__]: [count = len(queries)],
    [representative = queries[0]], which raises [IndexError] on an empty
    list. *)
Definition new_group (fp : string) (qs : list SQLQuery) : option NPlusOneGroup :=
  match qs with
  | [] => None
  | q :: _ =>
    Some {| fingerprint := fp; queries := qs;
            count := List.length qs; representative := q |}
  end.

Record NPlusOneResult : Type := {
  groups : list NPlusOneGroup;
  flagged_query_ids : gset Z;
  has_n_plus_one : bool
}.

(** [NPlusOneResult.__init__]. *)
Definition new_result (gs : list NPlusOneGroup) : NPlusOneResult :=
  {| groups := gs;
     flagged_query_ids :=
       list_to_set (flat_map (fun g => map pk (queries g)) gs);
     has_n_plus_one := match gs with [] => false | _ => true end |}.

(** The [buckets] dict, in insertion order. *)
Definition buckets : Type := list (string * list SQLQuery).

(** [buckets.setdefault(fp, []).append(q)]. *)
Fixpoint setdefault_append (fp : string) (q : SQLQuery) (b : buckets) : buckets :=
  match b with
  | [] => [(fp, [q])]
  | (k, qs) :: r =>
    if String.eqb k fp then (k, qs ++ [q]) :: r
    else (k, qs) :: setdefault_append fp q r
  end.

Definition fp_of (q : SQLQuery) : string := fingerprint_query (query q).

(** The loop [for q in queries: ...]. *)
Definition fill_buckets (qs : list SQLQuery) : buckets :=
  fold_left (fun b q => setdefault_append (fp_of q) q b) qs [].

(** The comprehension
    [[NPlusOneGroup(fp, qs) for fp, qs in buckets.items() if len(qs) >= threshold]]. *)
Fixpoint flag_groups (threshold : Z) (b : buckets) : option (list NPlusOneGroup) :=
  match b with
  | [] => Some []
  | (fp, qs) :: r =>
    if (threshold <=? Z.of_nat (List.length qs))%Z then
      match new_group fp qs with
      | None => None
      | Some g =>
        match flag_groups threshold r with
        | None => None
        | Some gs => Some (g :: gs)
        end
      end
    else flag_groups threshold r
  end.

(** [flagged.sort(key=lambda g: g.count, reverse=True)].  [list.sort] is
    stable, with [reverse=True] too: groups of equal count keep their order.
    A stable sort is determined by that; here it is insertion from the
    right. *)
Fixpoint insert_desc (g : NPlusOneGroup) (l : list NPlusOneGroup) : list NPlusOneGroup :=
  match l with
  | [] => [g]
  | h :: t => if count h <=? count g then g :: l else h :: insert_desc g t
  end.

Fixpoint sort_desc (l : list NPlusOneGroup) : list NPlusOneGroup :=
  match l with
  | [] => []
  | g :: r => insert_desc g (sort_desc r)
  end.

(** The source function; [None] stands for a raised exception. *)
Definition detect_n_plus_one (qs : list SQLQuery) (threshold : Z) : option NPlusOneResult :=
  match flag_groups threshold (fill_buckets qs) with
  | None => None
  | Some flagged => Some (new_result (sort_desc flagged))
  end.

(** ** Vocabulary of the statement *)

(** The queries of fingerprint [fp], in input order. *)
Definition members (fp : string) (qs : list SQLQuery) : list SQLQuery :=
  List.filter (fun q => String.eqb (fp_of q) fp) qs.

(** Position of the first occurrence of [k]. *)
Fixpoint first_index (k : string) (ks : list string) : nat :=
  match ks with
  | [] => 0
  | a :: r => if String.eqb a k then 0 else S (first_index k r)
  end.

(** [x] stands before an occurrence of [y]. *)
Fixpoint precedes {A : Type} (l : list A) (x y : A) : Prop :=
  match l with
  | [] => False
  | a :: r => (a = x /\ In y r) \/ precedes r x y
  end.

(** The distinct elements, in order of first occurrence. *)
Fixpoint first_seen (ks : list string) : list string :=
  match ks with
  | [] => []
  | a :: r => a :: List.filter (fun k => negb (String.eqb k a)) (first_seen r)
  end.

(** [g] is the group of fingerprint [k] over the queries [qs]. *)
Definition is_group_of (qs : list SQLQuery) (k : string) (g : NPlusOneGroup) : Prop :=
  fingerprint g = k /\ queries g = members k qs
  /\ count g = List.length (queries g)
  /\ hd_error (queries g) = Some (representative g).

Definition qualifies (threshold : Z) (qs : list SQLQuery) (k : string) : bool :=
  (threshold <=? Z.of_nat (List.length (members k qs)))%Z.

Definition bucket_of (qs : list SQLQuery) (k : string) : string * list SQLQuery :=
  (k, members k qs).

Fixpoint sorted_desc (l : list NPlusOneGroup) : Prop :=
  match l with
  | [] => True
  | a :: r => (forall y, In y r -> count y <= count a) /\ sorted_desc r
  end.

(** Three queries that differ in a parameter only. *)
Definition query_1 : SQLQuery :=
  {| pk := 1; query := "SELECT * FROM t WHERE id = 1" |}.
Definition query_2 : SQLQuery :=
  {| pk := 2; query := "SELECT * FROM t WHERE id = 2" |}.
Definition query_3 : SQLQuery :=
  {| pk := 3; query := "SELECT * FROM t WHERE id = 3" |}.

(** ** First occurrences *)

Lemma first_seen_in (k : string) (ks : list string) :
  In k (first_seen ks) <-> In k ks.
Proof.
  induction ks as [|a r IH]; [reflexivity|].
  simpl. rewrite filter_In, IH. split.
  - intros [H | [H _]]; [left | right]; assumption.
  - intros [H | H]; [left; assumption|].
    destruct (String.eqb_spec k a) as [E | E]; [left; congruence|].
    right. split; [assumption | reflexivity].
Qed.

Lemma first_seen_nodup (ks : list string) : List.NoDup (first_seen ks).
Proof.
  induction ks as [|a r IH]; [constructor|].
  simpl. constructor.
  - rewrite filter_In. intros [_ H]. rewrite String.eqb_refl in H. discriminate.
  - apply List.NoDup_filter, IH.
Qed.

Lemma existsb_eqb_in (k : string) (ks : list string) :
  existsb (String.eqb k) ks = true <-> In k ks.
Proof.
  rewrite existsb_exists. split.
  - intros (x & Hx & E). apply String.eqb_eq in E. congruence.
  - intros H. exists k. split; [assumption | apply String.eqb_refl].
Qed.

Lemma first_seen_snoc (ks : list string) (k : string) :
  first_seen (ks ++ [k])
  = if existsb (String.eqb k) ks then first_seen ks else first_seen ks ++ [k].
Proof.
  induction ks as [|a r IH]; [reflexivity|].
  simpl. rewrite IH. destruct (String.eqb_spec k a) as [E | E]; simpl.
  - subst a. destruct (existsb (String.eqb k) r); [reflexivity|].
    rewrite List.filter_app. simpl. rewrite String.eqb_refl. simpl.
    rewrite app_nil_r. reflexivity.
  - destruct (existsb (String.eqb k) r); [reflexivity|].
    rewrite List.filter_app. simpl.
    destruct (String.eqb_spec k a); [contradiction|]. reflexivity.
Qed.

(** ** The buckets *)

Lemma members_snoc (k : string) (qs : list SQLQuery) (q : SQLQuery) :
  members k (qs ++ [q])
  = members k qs ++ (if String.eqb (fp_of q) k then [q] else []).
Proof. unfold members. rewrite List.filter_app. reflexivity. Qed.

Lemma setdefault_append_map (qs : list SQLQuery) (q : SQLQuery) (L : list string) :
  List.NoDup L ->
  setdefault_append (fp_of q) q (map (bucket_of qs) L)
  = map (bucket_of (qs ++ [q])) L
    ++ (if existsb (String.eqb (fp_of q)) L then [] else [(fp_of q, [q])]).
Proof.
  induction L as [|k0 L IH]; intros Hnd; [reflexivity|].
  inversion Hnd as [|? ? Hnotin Hnd']; subst.
  cbn [map setdefault_append bucket_of existsb].
  change (bucket_of (qs ++ [q]) k0) with (k0, members k0 (qs ++ [q])).
  rewrite members_snoc.
  rewrite (String.eqb_sym (fp_of q) k0).
  destruct (String.eqb_spec k0 (fp_of q)) as [E | E]; cbn [orb app].
  - rewrite app_nil_r. f_equal. subst k0.
    apply map_ext_in. intros k' Hk'. unfold bucket_of. rewrite members_snoc.
    destruct (String.eqb_spec (fp_of q) k') as [E' | _]; [congruence|].
    rewrite app_nil_r. reflexivity.
  - rewrite app_nil_r. f_equal. apply IH, Hnd'.
Qed.

Lemma fill_buckets_spec (qs : list SQLQuery) :
  fill_buckets qs = map (bucket_of qs) (first_seen (map fp_of qs)).
Proof.
  induction qs as [|q qs IH] using rev_ind; [reflexivity|].
  unfold fill_buckets in *. rewrite fold_left_app. cbn [fold_left].
  rewrite IH, (setdefault_append_map qs q _ (first_seen_nodup _)).
  rewrite map_app. cbn [map]. rewrite first_seen_snoc.
  assert (E : existsb (String.eqb (fp_of q)) (first_seen (map fp_of qs))
              = existsb (String.eqb (fp_of q)) (map fp_of qs)).
  { apply eq_true_iff_eq. rewrite !existsb_eqb_in. apply first_seen_in. }
  rewrite E. destruct (existsb (String.eqb (fp_of q)) (map fp_of qs)) eqn:Hex.
  - rewrite app_nil_r. reflexivity.
  - rewrite map_app. cbn [map]. f_equal. unfold bucket_of. f_equal. f_equal.
    rewrite members_snoc, String.eqb_refl.
    assert (Hnil : members (fp_of q) qs = []).
    { unfold members. destruct (List.filter _ qs) as [|x l] eqn:Ef; [reflexivity|].
      assert (Hin : In x (List.filter (fun q0 => String.eqb (fp_of q0) (fp_of q)) qs))
        by (rewrite Ef; left; reflexivity).
      apply filter_In in Hin as [Hin Hx]. apply String.eqb_eq in Hx.
      assert (Hk : In (fp_of q) (map fp_of qs)) by (rewrite <- Hx; apply in_map, Hin).
      apply existsb_eqb_in in Hk. congruence. }
    rewrite Hnil. reflexivity.
Qed.

Lemma members_nonempty (k : string) (qs : list SQLQuery) :
  In k (map fp_of qs) -> members k qs <> [].
Proof.
  intros H. apply in_map_iff in H as (q & Hq & Hin).
  assert (Hm : In q (members k qs)).
  { unfold members. apply filter_In. split; [assumption|].
    rewrite Hq. apply String.eqb_refl. }
  intros E. rewrite E in Hm. exact Hm.
Qed.

Lemma flag_groups_spec (threshold : Z) (qs : list SQLQuery) (L : list string) :
  (forall k, In k L -> members k qs <> []) ->
  exists gs,
    flag_groups threshold (map (bucket_of qs) L) = Some gs
    /\ Forall2 (is_group_of qs) (List.filter (qualifies threshold qs) L) gs.
Proof.
  induction L as [|k L IH]; intros Hne.
  - exists []. split; [reflexivity | constructor].
  - destruct IH as (gs & Hgs & Hall).
    { intros k' Hk'. apply Hne. right. exact Hk'. }
    cbn [map flag_groups bucket_of List.filter]. unfold qualifies at 1.
    destruct (threshold <=? Z.of_nat (List.length (members k qs)))%Z.
    + destruct (members k qs) as [|q0 l] eqn:Em.
      { exfalso. apply (Hne k); [left; reflexivity | exact Em]. }
      cbn [new_group]. rewrite Hgs. eexists. split; [reflexivity|].
      constructor; [|exact Hall].
      unfold is_group_of. cbn. rewrite Em. repeat split; reflexivity.
    + exists gs. split; assumption.
Qed.

(** ** The sort: a permutation, descending, stable *)

Lemma insert_desc_perm (g : NPlusOneGroup) (l : list NPlusOneGroup) :
  Permutation (insert_desc g l) (g :: l).
Proof.
  induction l as [|h t IH]; [apply Permutation_refl|].
  simpl. destruct (count h <=? count g); [apply Permutation_refl|].
  eapply Permutation_trans; [apply perm_skip, IH | apply perm_swap].
Qed.

Lemma sort_desc_perm (l : list NPlusOneGroup) : Permutation (sort_desc l) l.
Proof.
  induction l as [|g r IH]; [apply Permutation_refl|].
  simpl. eapply Permutation_trans; [apply insert_desc_perm | apply perm_skip, IH].
Qed.

Lemma insert_desc_in (g x : NPlusOneGroup) (l : list NPlusOneGroup) :
  In x (insert_desc g l) <-> x = g \/ In x l.
Proof.
  split; intros H.
  - apply (Permutation_in _ (insert_desc_perm g l)) in H.
    destruct H as [H | H]; [left; congruence | right; exact H].
  - apply (Permutation_in _ (Permutation_sym (insert_desc_perm g l))).
    destruct H as [H | H]; [left; congruence | right; exact H].
Qed.

Lemma insert_desc_sorted (g : NPlusOneGroup) (l : list NPlusOneGroup) :
  sorted_desc l -> sorted_desc (insert_desc g l).
Proof.
  induction l as [|h t IH]; intros Hs.
  - simpl. split; [intros y []|exact I].
  - destruct Hs as [Hh Ht]. simpl.
    destruct (count h <=? count g) eqn:E.
    + apply Nat.leb_le in E. split; [|split; assumption].
      intros y [Hy | Hy]; [subst y; exact E|].
      specialize (Hh y Hy). lia.
    + apply Nat.leb_gt in E. split; [|apply IH, Ht].
      intros y Hy. apply insert_desc_in in Hy as [Hy | Hy]; [subst y; lia|].
      apply Hh, Hy.
Qed.

Lemma sort_desc_sorted (l : list NPlusOneGroup) : sorted_desc (sort_desc l).
Proof.
  induction l as [|g r IH]; [exact I|]. simpl. apply insert_desc_sorted, IH.
Qed.

Lemma precedes_in {A : Type} (l : list A) (x y : A) :
  precedes l x y -> In x l /\ In y l.
Proof.
  induction l as [|a r IH]; [intros []|].
  intros [[E Hy] | H].
  - split; [left; exact E | right; exact Hy].
  - destruct (IH H). split; right; assumption.
Qed.

Lemma insert_desc_precedes (a x y : NPlusOneGroup) (s : list NPlusOneGroup) :
  sorted_desc s ->
  precedes (insert_desc a s) x y ->
  precedes s x y
  \/ (x = a /\ In y s /\ count y <= count a)
  \/ (y = a /\ In x s /\ count a < count x).
Proof.
  induction s as [|h t IH]; intros Hs Hp.
  - simpl in Hp. destruct Hp as [[_ []] | []].
  - destruct Hs as [Hh Ht]. simpl in Hp.
    destruct (count h <=? count a) eqn:E.
    + apply Nat.leb_le in E. destruct Hp as [[Ex Hy] | Hp].
      * right. left. split; [congruence|]. split; [exact Hy|].
        destruct Hy as [Hy | Hy]; [subst y; exact E|].
        specialize (Hh y Hy). lia.
      * left. exact Hp.
    + apply Nat.leb_gt in E. destruct Hp as [[Ex Hy] | Hp].
      * subst x. apply insert_desc_in in Hy as [Hy | Hy].
        -- right. right. split; [exact Hy|]. split; [left; reflexivity | exact E].
        -- left. left. split; [reflexivity | exact Hy].
      * destruct (IH Ht Hp) as [H | [(Ex & Hy & Hc) | (Ey & Hx & Hc)]].
        -- left. right. exact H.
        -- right. left. split; [exact Ex|]. split; [right; exact Hy | exact Hc].
        -- right. right. split; [exact Ey|]. split; [right; exact Hx | exact Hc].
Qed.

Lemma sort_desc_stable (l : list NPlusOneGroup) (x y : NPlusOneGroup) :
  precedes (sort_desc l) x y ->
  count y <= count x /\ (count x = count y -> precedes l x y).
Proof.
  revert x y. induction l as [|a r IH]; intros x y Hp; [destruct Hp|].
  simpl in Hp.
  destruct (insert_desc_precedes a x y _ (sort_desc_sorted r) Hp)
    as [H | [(Ex & Hy & Hc) | (Ey & Hx & Hc)]].
  - destruct (IH x y H) as [Hc Hst]. split; [exact Hc|].
    intros E. right. apply Hst, E.
  - subst x. split; [exact Hc|]. intros _. left. split; [reflexivity|].
    apply (Permutation_in _ (sort_desc_perm r)), Hy.
  - subst y. split; [lia|]. intros E. lia.
Qed.

(** ** Order of first encounter *)

Lemma precedes_filter {A : Type} (p : A -> bool) (l : list A) (x y : A) :
  precedes (List.filter p l) x y -> precedes l x y.
Proof.
  induction l as [|a r IH]; [intros []|].
  simpl. destruct (p a); simpl.
  - intros [[E Hy] | H].
    + left. split; [exact E|]. apply filter_In in Hy. apply Hy.
    + right. apply IH, H.
  - intros H. right. apply IH, H.
Qed.

Lemma forall2_in_right {A B : Type} (R : A -> B -> Prop) (K : list A) (G : list B)
  (g : B) :
  Forall2 R K G -> In g G -> exists k, In k K /\ R k g.
Proof.
  induction 1 as [|k g' K G Hkg HKG IH]; [intros []|].
  intros [E | H].
  - subst g'. exists k. split; [left; reflexivity | exact Hkg].
  - destruct (IH H) as (k' & Hk' & HR). exists k'. split; [right; exact Hk' | exact HR].
Qed.

Lemma precedes_forall2 {A B : Type} (R : A -> B -> Prop) (K : list A) (G : list B)
  (g1 g2 : B) :
  Forall2 R K G -> precedes G g1 g2 ->
  exists k1 k2, R k1 g1 /\ R k2 g2 /\ precedes K k1 k2.
Proof.
  induction 1 as [|k g K G Hkg HKG IH]; [intros []|].
  intros [[E Hy] | H].
  - subst g. destruct (forall2_in_right R K G g2 HKG Hy) as (k2 & Hk2 & HR).
    exists k, k2. split; [exact Hkg|]. split; [exact HR|].
    left. split; [reflexivity | exact Hk2].
  - destruct (IH H) as (k1 & k2 & H1 & H2 & Hp).
    exists k1, k2. split; [exact H1|]. split; [exact H2|]. right. exact Hp.
Qed.

Lemma precedes_first_seen (ks : list string) (k1 k2 : string) :
  precedes (first_seen ks) k1 k2 -> first_index k1 ks < first_index k2 ks.
Proof.
  induction ks as [|a r IH]; [intros []|].
  simpl. intros [[E Hy] | H].
  - subst a. rewrite String.eqb_refl.
    apply filter_In in Hy as [_ Hy]. apply negb_true_iff in Hy.
    rewrite String.eqb_sym, Hy. lia.
  - destruct (precedes_in _ _ _ H) as [H1 H2].
    apply filter_In in H1 as [_ H1]. apply filter_In in H2 as [_ H2].
    apply negb_true_iff in H1, H2.
    rewrite (String.eqb_sym a k1), (String.eqb_sym a k2), H1, H2.
    apply precedes_filter in H. specialize (IH H). lia.
Qed.

Lemma groups_fingerprints (qs : list SQLQuery) (K : list string)
  (gs : list NPlusOneGroup) :
  Forall2 (is_group_of qs) K gs -> map fingerprint gs = K.
Proof.
  induction 1 as [|k g K gs Hkg _ IH]; [reflexivity|].
  simpl. rewrite IH. destruct Hkg as [E _]. rewrite E. reflexivity.
Qed.

(** ** C3 *)

(** C3. For every sequence of queries and every threshold,
    [detect_n_plus_one] returns (raising nothing) groups such that: every
    fingerprint has at most one group, and has one exactly when it occurs
    among the queries with at least [threshold] members; a group's queries
    are the queries of its fingerprint in input order, its count their number
    and its representative the first of them; a group standing before
    another has a count at least as large, and at equal counts its
    fingerprint was met first in the input.  Three queries of one
    fingerprint at threshold 3 give one group of count 3; two give none. *)
Theorem detect_n_plus_one_groups :
  (forall (qs : list SQLQuery) (threshold : Z),
    exists r,
      detect_n_plus_one qs threshold = Some r
      /\ List.NoDup (map fingerprint (groups r))
      /\ (forall fp,
            In fp (map fingerprint (groups r))
            <-> In fp (map fp_of qs)
                /\ (threshold <= Z.of_nat (List.length (members fp qs)))%Z)
      /\ (forall g, In g (groups r) ->
            queries g = members (fingerprint g) qs
            /\ count g = List.length (queries g)
            /\ hd_error (queries g) = Some (representative g))
      /\ (forall g1 g2, precedes (groups r) g1 g2 ->
            count g2 <= count g1
            /\ (count g1 = count g2 ->
                first_index (fingerprint g1) (map fp_of qs)
                < first_index (fingerprint g2) (map fp_of qs))))
  /\ (forall a b c : SQLQuery,
        fp_of a = fp_of b -> fp_of b = fp_of c ->
        exists g,
          option_map groups (detect_n_plus_one [a; b; c] 3) = Some [g]
          /\ count g = 3 /\ queries g = [a; b; c])
  /\ (forall a b : SQLQuery,
        option_map groups (detect_n_plus_one [a; b] 3) = Some []).
Proof.
  split; [|split].
  - intros qs threshold. unfold detect_n_plus_one. rewrite fill_buckets_spec.
    set (ks := map fp_of qs).
    destruct (flag_groups_spec threshold qs (first_seen ks)) as (gs & Hgs & Hall).
    { intros k Hk. apply members_nonempty, first_seen_in, Hk. }
    rewrite Hgs. eexists. split; [reflexivity|].
    cbn [groups new_result].
    set (K := List.filter (qualifies threshold qs) (first_seen ks)) in *.
    pose proof (groups_fingerprints qs K gs Hall) as HK.
    pose proof (sort_desc_perm gs) as Hperm.
    assert (HpermK : Permutation (map fingerprint (sort_desc gs)) K).
    { rewrite <- HK. apply Permutation_map, Hperm. }
    assert (HndK : List.NoDup K) by (apply List.NoDup_filter, first_seen_nodup).
    split; [|split; [|split]].
    + apply (Permutation_NoDup (Permutation_sym HpermK) HndK).
    + intros fp. split.
      * intros H. apply (Permutation_in _ HpermK) in H.
        apply filter_In in H as [H1 H2]. split.
        -- apply first_seen_in, H1.
        -- apply Z.leb_le, H2.
      * intros [H1 H2]. apply (Permutation_in _ (Permutation_sym HpermK)).
        apply filter_In. split; [apply first_seen_in, H1 | apply Z.leb_le, H2].
    + intros g Hg. apply (Permutation_in _ Hperm) in Hg.
      destruct (forall2_in_right _ _ _ g Hall Hg) as (k & _ & (E & Hq & Hc & Hr)).
      subst k. split; [exact Hq|]. split; assumption.
    + intros g1 g2 Hp. destruct (sort_desc_stable gs g1 g2 Hp) as [Hc Hst].
      split; [exact Hc|]. intros E. specialize (Hst E).
      destruct (precedes_forall2 _ _ _ g1 g2 Hall Hst)
        as (k1 & k2 & (E1 & _) & (E2 & _) & HpK).
      subst k1 k2. apply precedes_first_seen.
      apply (precedes_filter _ _ _ _ HpK).
  - intros a b c Hab Hbc. unfold detect_n_plus_one, fill_buckets.
    cbn [fold_left setdefault_append].
    rewrite <- Hbc, <- Hab, String.eqb_refl.
    cbn [setdefault_append app]. rewrite String.eqb_refl.
    cbn. eexists. split; [reflexivity|]. split; reflexivity.
  - intros a b. unfold detect_n_plus_one, fill_buckets.
    cbn [fold_left setdefault_append].
    destruct (String.eqb (fp_of a) (fp_of b)); reflexivity.
Qed.

(** The three example queries have one fingerprint: one group of count 3. *)
Lemma detect_n_plus_one_groups_witness :
  exists g,
    option_map groups (detect_n_plus_one [query_1; query_2; query_3] 3) = Some [g]
    /\ count g = 3 /\ queries g = [query_1; query_2; query_3].
Proof.
  apply (proj1 (proj2 detect_n_plus_one_groups) query_1 query_2 query_3);
    reflexivity.
Defined.

End NPlusOne.

(* ===================================================================== *)
(** * The telemetry records                                               *)
(* ===================================================================== *)

Module Models.

(** [x < y] on numbers, as a boolean. *)
Definition Qltb (x y : Q) : bool := negb (Qle_bool y x).

(** A request row, with the fields the analytics read.  [time_taken] is
    nullable; [query_times] are the [time_taken] of the row's SQL queries
    (what [Sum('queries__time_taken')] adds up). *)
Record Request : Type := {
  req_pk : Z;
  path : string;
  start_time : Z;
  num_sql_queries : Z;
  time_taken : option Q;
  query_times : list (option Q)
}.

(** A response row. *)
Record Response : Type := {
  request_id : Z;
  status_code : option Z
}.

Lemma Qltb_lt (x y : Q) : Qltb x y = true <-> (x < y)%Q.
Proof.
  unfold Qltb. rewrite negb_true_iff. split.
  - intros H. apply Qnot_le_lt. intros Hle.
    apply Qle_bool_iff in Hle. congruence.
  - intros H. destruct (Qle_bool y x) eqn:E; [|reflexivity].
    apply Qle_bool_iff in E. exfalso. exact (Qlt_not_le _ _ H E).
Qed.

End Models.

(* ===================================================================== *)
(** * Response-time histogram ([silk/views/summary.py])                   *)
(* ===================================================================== *)

Module Histogram.

Import Models.

Local Open Scope string_scope.

(** A bucket dict [{'label': .., 'max': .., 'count': ..}]; [max = None] is the
    unbounded bucket. *)
Record Bucket : Type := { label : string; max : option Z; count : nat }.

Definition initial_buckets : list Bucket :=
  [ {| label := "<50ms";     max := Some 50%Z;   count := 0 |};
    {| label := "50-100ms";  max := Some 100%Z;  count := 0 |};
    {| label := "100-200ms"; max := Some 200%Z;  count := 0 |};
    {| label := "200-500ms"; max := Some 500%Z;  count := 0 |};
    {| label := "500ms-1s";  max := Some 1000%Z; count := 0 |};
    {| label := ">1s";       max := None;        count := 0 |} ].

(** [b['max'] is None or t < b['max']]. *)
Definition fits (t : Q) (b : Bucket) : bool :=
  match max b with
  | None => true
  | Some m => Qltb t (inject_Z m)
  end.

(** The inner loop:
<<
    for b in buckets:
        if b['max'] is None or t < b['max']:
            b['count'] += 1
            break
>> *)
Fixpoint count_time (t : Q) (bs : list Bucket) : list Bucket :=
  match bs with
  | [] => []
  | b :: r =>
    if fits t b
    then {| label := label b; max := max b; count := count b + 1 |} :: r
    else b :: count_time t r
  end.

(** [.filter(time_taken__isnull=False, time_taken__gte=0)
     .values_list('time_taken', flat=True)] over the rows that match the
    filters. *)
Fixpoint considered (rows : list Request) : list Q :=
  match rows with
  | [] => []
  | r :: rest =>
    match time_taken r with
    | Some t => if Qle_bool 0 t then t :: considered rest else considered rest
    | None => considered rest
    end
  end.

(** The source function, on the rows of [Request.objects] that match the
    filters. *)
Definition _response_time_histogram (rows : list Request) : list (string * nat) :=
  let times := considered rows in
  let buckets := fold_left (fun bs t => count_time t bs) times initial_buckets in
  map (fun b => (label b, count b)) buckets.

(** ** Vocabulary of the statement *)

(** How many of the considered times satisfy [p]. *)
Definition tally (p : Q -> bool) (rows : list Request) : nat :=
  List.length (List.filter p (considered rows)).

(** [lo <= t < hi]. *)
Definition between (lo hi : Z) (t : Q) : bool :=
  Qle_bool (inject_Z lo) t && Qltb t (inject_Z hi).

Definition below (hi : Z) (t : Q) : bool := Qltb t (inject_Z hi).
Definition from (lo : Z) (t : Q) : bool := Qle_bool (inject_Z lo) t.

(** A row that has the time [t] and nothing else of interest. *)
Definition row (t : option Q) : Request :=
  {| req_pk := 0; path := "/"; start_time := 0; num_sql_queries := 0;
     time_taken := t; query_times := [] |}.

(** The six buckets with given counts. *)
Definition buckets_with (c0 c1 c2 c3 c4 c5 : nat) : list Bucket :=
  [ {| label := "<50ms";     max := Some 50%Z;   count := c0 |};
    {| label := "50-100ms";  max := Some 100%Z;  count := c1 |};
    {| label := "100-200ms"; max := Some 200%Z;  count := c2 |};
    {| label := "200-500ms"; max := Some 500%Z;  count := c3 |};
    {| label := "500ms-1s";  max := Some 1000%Z; count := c4 |};
    {| label := ">1s";       max := None;        count := c5 |} ].

Definition b2n (b : bool) : nat := if b then 1 else 0.

(** ** Lemmas *)

Lemma from_mono (a b : Z) (t : Q) :
  (a <= b)%Z -> from b t = true -> from a t = true.
Proof.
  unfold from. intros Hab H. apply Qle_bool_iff in H. apply Qle_bool_iff.
  apply Qle_trans with (inject_Z b); [|exact H]. rewrite <- Zle_Qle. exact Hab.
Qed.

Ltac order_cases t :=
  pose proof (from_mono 50 100 t ltac:(lia)) as H12;
  pose proof (from_mono 100 200 t ltac:(lia)) as H23;
  pose proof (from_mono 200 500 t ltac:(lia)) as H34;
  pose proof (from_mono 500 1000 t ltac:(lia)) as H45;
  unfold fits, below, between, Qltb in *; cbn [max] in *;
  fold (from 50 t) in *; fold (from 100 t) in *; fold (from 200 t) in *;
  fold (from 500 t) in *; fold (from 1000 t) in *;
  destruct (from 50 t), (from 100 t), (from 200 t), (from 500 t), (from 1000 t);
  try (specialize (H12 eq_refl); discriminate);
  try (specialize (H23 eq_refl); discriminate);
  try (specialize (H34 eq_refl); discriminate);
  try (specialize (H45 eq_refl); discriminate).

Lemma count_time_step (t : Q) (c0 c1 c2 c3 c4 c5 : nat) :
  count_time t (buckets_with c0 c1 c2 c3 c4 c5)
  = buckets_with (c0 + b2n (below 50 t)) (c1 + b2n (between 50 100 t))
                 (c2 + b2n (between 100 200 t)) (c3 + b2n (between 200 500 t))
                 (c4 + b2n (between 500 1000 t)) (c5 + b2n (from 1000 t)).
Proof.
  unfold buckets_with, count_time.
  order_cases t; cbn; rewrite ?Nat.add_0_r; reflexivity.
Qed.


Lemma length_filter_cons (p : Q -> bool) (t : Q) (ts : list Q) :
  List.length (List.filter p (t :: ts)) = b2n (p t) + List.length (List.filter p ts).
Proof. simpl. destruct (p t); reflexivity. Qed.

Lemma count_times_fold (ts : list Q) :
  forall c0 c1 c2 c3 c4 c5,
    fold_left (fun bs t => count_time t bs) ts (buckets_with c0 c1 c2 c3 c4 c5)
    = buckets_with (c0 + List.length (List.filter (below 50) ts))
                   (c1 + List.length (List.filter (between 50 100) ts))
                   (c2 + List.length (List.filter (between 100 200) ts))
                   (c3 + List.length (List.filter (between 200 500) ts))
                   (c4 + List.length (List.filter (between 500 1000) ts))
                   (c5 + List.length (List.filter (from 1000) ts)).
Proof.
  induction ts as [|t ts IH]; intros c0 c1 c2 c3 c4 c5.
  - simpl. rewrite !Nat.add_0_r. reflexivity.
  - cbn [fold_left]. rewrite count_time_step, IH, !length_filter_cons.
    rewrite !Nat.add_assoc. reflexivity.
Qed.



(** ** C4 *)


End Histogram.

(* ===================================================================== *)
(** * Status distribution ([silk/views/summary.py])                       *)
(* ===================================================================== *)

Module StatusDistribution.

Import Models.

Local Open Scope string_scope.
Local Open Scope Z_scope.

(** The status codes of
    [Response.objects.filter(request_id__in=request_pks, status_code__isnull=False)],
    one per matching response. *)
Fixpoint matching_codes (request_pks : list Z) (responses : list Response) : list Z :=
  match responses with
  | [] => []
  | r :: rest =>
    match status_code r with
    | Some sc =>
      if existsb (Z.eqb (request_id r)) request_pks
      then sc :: matching_codes request_pks rest
      else matching_codes request_pks rest
    | None => matching_codes request_pks rest
    end
  end.

(** [.values('status_code').annotate(count=Count('id'))]: one row
    [(status_code, count)] per distinct status code. *)
Fixpoint tally_code (sc : Z) (g : list (Z * Z)) : list (Z * Z) :=
  match g with
  | [] => [(sc, 1)]
  | (k, n) :: r =>
    if k =? sc then (k, n + 1) :: r else (k, n) :: tally_code sc r
  end.

Definition group_by_status (codes : list Z) : list (Z * Z) :=
  fold_left (fun g sc => tally_code sc g) codes [].

(** [buckets[k] += n]; [KeyError] (here [None]) when [k] is no key. *)
Definition iadd (k : string) (n : Z) (buckets : gmap string Z) : option (gmap string Z) :=
  match buckets !! k with
  | Some c => Some (<[k := c + n]> buckets)
  | None => None
  end.

(** [{'2xx': a, '3xx': b, '4xx': c, '5xx': d}]. *)
Definition four_buckets (a b c d : Z) : gmap string Z :=
  <["2xx" := a]> (<["3xx" := b]> (<["4xx" := c]> (<["5xx" := d]> ∅))).

(** The body of the loop [for row in rows]. *)
Definition count_row (buckets : gmap string Z) (row : Z * Z) : option (gmap string Z) :=
  let sc := fst row in
  if (200 <=? sc) && (sc <? 300) then iadd "2xx" (snd row) buckets
  else if (300 <=? sc) && (sc <? 400) then iadd "3xx" (snd row) buckets
  else if (400 <=? sc) && (sc <? 500) then iadd "4xx" (snd row) buckets
  else if 500 <=? sc then iadd "5xx" (snd row) buckets
  else Some buckets.

Fixpoint count_rows (rows : list (Z * Z)) (buckets : gmap string Z) : option (gmap string Z) :=
  match rows with
  | [] => Some buckets
  | row :: rest =>
    match count_row buckets row with
    | Some buckets' => count_rows rest buckets'
    | None => None
    end
  end.

(** The source function, on the rows of [Request.objects] that match the
    filters and the table of responses; [None] stands for a raised
    exception. *)
Definition _status_distribution (requests : list Request) (responses : list Response)
  : option (gmap string Z) :=
  let request_pks := map req_pk requests in
  match request_pks with
  | [] => Some (four_buckets 0 0 0 0)
  | _ =>
    let rows := group_by_status (matching_codes request_pks responses) in
    count_rows rows (four_buckets 0 0 0 0)
  end.

(** ** Vocabulary of the statement *)

(** The responses of the requests that have a status code satisfying [p]. *)
Definition responses_with (p : Z -> bool) (requests : list Request)
  (responses : list Response) : Z :=
  Z.of_nat
    (List.length
       (List.filter
          (fun r => match status_code r with
                    | Some sc => existsb (Z.eqb (request_id r)) (map req_pk requests) && p sc
                    | None => false
                    end) responses)).

Definition in_class (lo hi : Z) (sc : Z) : bool := (lo <=? sc) && (sc <? hi).
Definition at_least (lo : Z) (sc : Z) : bool := lo <=? sc.

Definition request_1 : Request :=
  {| req_pk := 1; path := "/"; start_time := 0; num_sql_queries := 0;
     time_taken := None; query_times := [] |}.

Definition response_of (pk : Z) (sc : option Z) : Response :=
  {| request_id := pk; status_code := sc |}.

(** What the row adds to a bucket of the status codes that satisfy [p]. *)
Definition share (p : Z -> bool) (row : Z * Z) : Z :=
  if p (fst row) then snd row else 0.

(** The counts of the rows whose status code satisfies [p], added up. *)
Fixpoint weight (p : Z -> bool) (g : list (Z * Z)) : Z :=
  match g with
  | [] => 0
  | (k, n) :: r => (if p k then n else 0) + weight p r
  end.

(** ** Lemmas *)

Lemma iadd_2xx a b c d n :
  iadd "2xx" n (four_buckets a b c d) = Some (four_buckets (a + n) b c d).
Proof. reflexivity. Qed.

Lemma iadd_3xx a b c d n :
  iadd "3xx" n (four_buckets a b c d) = Some (four_buckets a (b + n) c d).
Proof. reflexivity. Qed.

Lemma iadd_4xx a b c d n :
  iadd "4xx" n (four_buckets a b c d) = Some (four_buckets a b (c + n) d).
Proof. reflexivity. Qed.

Lemma iadd_5xx a b c d n :
  iadd "5xx" n (four_buckets a b c d) = Some (four_buckets a b c (d + n)).
Proof. reflexivity. Qed.

Lemma count_row_four a b c d (row : Z * Z) :
  count_row (four_buckets a b c d) row
  = Some (four_buckets (a + share (in_class 200 300) row)
                       (b + share (in_class 300 400) row)
                       (c + share (in_class 400 500) row)
                       (d + share (at_least 500) row)).
Proof.
  unfold count_row, share, in_class, at_least.
  destruct row as [sc n]. cbn [fst snd].
  destruct (200 <=? sc) eqn:E1, (sc <? 300) eqn:E2, (300 <=? sc) eqn:E3,
    (sc <? 400) eqn:E4, (400 <=? sc) eqn:E5, (sc <? 500) eqn:E6,
    (500 <=? sc) eqn:E7; cbn [andb];
    rewrite ?iadd_2xx, ?iadd_3xx, ?iadd_4xx, ?iadd_5xx, ?Z.add_0_r;
    try reflexivity; exfalso; lia.
Qed.

Lemma count_rows_four (g : list (Z * Z)) :
  forall a b c d,
    count_rows g (four_buckets a b c d)
    = Some (four_buckets (a + weight (in_class 200 300) g)
                         (b + weight (in_class 300 400) g)
                         (c + weight (in_class 400 500) g)
                         (d + weight (at_least 500) g)).
Proof.
  induction g as [|[k n] g IH]; intros a b c d.
  - simpl. rewrite !Z.add_0_r. reflexivity.
  - cbn [count_rows]. rewrite count_row_four, IH. unfold share. cbn [fst snd weight].
    rewrite !Z.add_assoc. reflexivity.
Qed.

Lemma weight_tally_code (p : Z -> bool) (sc : Z) (g : list (Z * Z)) :
  weight p (tally_code sc g) = weight p g + (if p sc then 1 else 0).
Proof.
  induction g as [|[k n] g IH]; [simpl; lia|].
  simpl. destruct (k =? sc) eqn:E.
  - apply Z.eqb_eq in E. subst k. simpl. destruct (p sc); lia.
  - simpl. rewrite IH. lia.
Qed.

Lemma weight_group_by_status (p : Z -> bool) (codes : list Z) :
  weight p (group_by_status codes) = Z.of_nat (List.length (List.filter p codes)).
Proof.
  unfold group_by_status.
  assert (H : forall g, weight p (fold_left (fun g sc => tally_code sc g) codes g)
                        = weight p g + Z.of_nat (List.length (List.filter p codes))).
  { induction codes as [|sc codes IH]; intros g; [simpl; lia|].
    cbn [fold_left List.filter]. rewrite IH, weight_tally_code.
    destruct (p sc); cbn [List.length]; lia. }
  rewrite H. reflexivity.
Qed.

Lemma matching_codes_filter (p : Z -> bool) (requests : list Request)
  (responses : list Response) :
  Z.of_nat (List.length (List.filter p (matching_codes (map req_pk requests) responses)))
  = responses_with p requests responses.
Proof.
  unfold responses_with. f_equal.
  induction responses as [|r rest IH]; [reflexivity|].
  simpl. destruct (status_code r) as [sc|]; [|exact IH].
  destruct (existsb (Z.eqb (request_id r)) (map req_pk requests)); [|exact IH].
  simpl. destruct (p sc); simpl; rewrite IH; reflexivity.
Qed.

Lemma responses_with_nil (p : Z -> bool) (responses : list Response) :
  responses_with p [] responses = 0.
Proof.
  unfold responses_with.
  induction responses as [|r rest IH]; [reflexivity|].
  simpl. destruct (status_code r); exact IH.
Qed.

Lemma responses_with_split (requests : list Request) (responses : list Response) :
  responses_with (in_class 200 300) requests responses
  + responses_with (in_class 300 400) requests responses
  + responses_with (in_class 400 500) requests responses
  + responses_with (at_least 500) requests responses
  = responses_with (at_least 200) requests responses.
Proof.
  unfold responses_with.
  induction responses as [|r rest IH]; [reflexivity|].
  cbn [List.filter]. destruct (status_code r) as [sc|]; [|exact IH].
  destruct (existsb (Z.eqb (request_id r)) (map req_pk requests)); [|exact IH].
  unfold in_class, at_least in *. cbn [andb].
  destruct (200 <=? sc) eqn:E1, (sc <? 300) eqn:E2, (300 <=? sc) eqn:E3,
    (sc <? 400) eqn:E4, (400 <=? sc) eqn:E5, (sc <? 500) eqn:E6,
    (500 <=? sc) eqn:E7; cbn [andb List.length]; lia.
Qed.

(** ** C7 *)

(** C7, as stated, fails: a response with the non-null status 101 is counted
    in no bucket (and one with status 600 is counted in '5xx'). *)
Lemma status_distribution_counterexample :
  _status_distribution [request_1] [response_of 1 (Some 101)]
    = Some (four_buckets 0 0 0 0)
  /\ responses_with (fun _ => true) [request_1] [response_of 1 (Some 101)] = 1
  /\ _status_distribution [request_1] [response_of 1 (Some 600)]
    = Some (four_buckets 0 0 0 1).
Proof. split; [|split]; reflexivity. Qed.

(** C7 (amended).  The status distribution is (raising nothing) the
    mapping with the four keys '2xx', '3xx', '4xx', '5xx', holding the
    numbers of responses of the requests with a status code in 200-299,
    300-399, 400-499, and from 500 on; responses with a null status or a
    status below 200 are in no bucket, so the four numbers add up to the
    number of the requests' responses with a status of at least 200.  For
    an empty request set it is the mapping with the four keys at zero. *)
Theorem status_distribution_buckets :
  (forall (requests : list Request) (responses : list Response),
      _status_distribution requests responses
      = Some (four_buckets
                (responses_with (in_class 200 300) requests responses)
                (responses_with (in_class 300 400) requests responses)
                (responses_with (in_class 400 500) requests responses)
                (responses_with (at_least 500) requests responses))
      /\ responses_with (in_class 200 300) requests responses
         + responses_with (in_class 300 400) requests responses
         + responses_with (in_class 400 500) requests responses
         + responses_with (at_least 500) requests responses
         = responses_with (at_least 200) requests responses)
  /\ (forall a b c d : Z,
        dom (four_buckets a b c d) = ({["2xx"; "3xx"; "4xx"; "5xx"]} : gset string)
        /\ four_buckets a b c d !! "2xx" = Some a
        /\ four_buckets a b c d !! "3xx" = Some b
        /\ four_buckets a b c d !! "4xx" = Some c
        /\ four_buckets a b c d !! "5xx" = Some d)
  /\ (forall responses : list Response,
        _status_distribution [] responses = Some (four_buckets 0 0 0 0)).
Proof.
  split; [|split].
  - intros requests responses. split; [|apply responses_with_split].
    unfold _status_distribution. cbv zeta.
    destruct (map req_pk requests) as [|pk0 pks] eqn:Epk.
    + destruct requests; [|discriminate].
      rewrite !responses_with_nil. reflexivity.
    + rewrite count_rows_four, !weight_group_by_status.
      rewrite <- Epk, !matching_codes_filter. reflexivity.
  - intros a b c d. split; [|repeat split; reflexivity].
    unfold four_buckets. rewrite !dom_insert_L, dom_empty_L. set_solver.
  - reflexivity.
Qed.

End StatusDistribution.

(* ===================================================================== *)
(** * Sort pipeline and filter state ([silk/views/requests.py])           *)
(* ===================================================================== *)

Module Requests.

Import Models.

Local Open Scope string_scope.

(** ** Query sets

    A Django query set over the request table, as far as the view uses it:
    the rows it selects, the [ORDER BY] fields (with their [-] prefix) and
    the slice bound.  [filter] narrows the rows, [order_by] replaces the
    ordering, evaluation sorts. *)
Record QuerySet : Type := {
  qs_rows : list Request;
  qs_order : list string;
  qs_limit : option nat
}.

Definition qs_filter (p : Request -> bool) (qs : QuerySet) : QuerySet :=
  {| qs_rows := List.filter p (qs_rows qs);
     qs_order := qs_order qs; qs_limit := qs_limit qs |}.

Definition qs_order_by (fields : list string) (qs : QuerySet) : QuerySet :=
  {| qs_rows := qs_rows qs; qs_order := fields; qs_limit := qs_limit qs |}.

Definition qs_slice (n : nat) (qs : QuerySet) : QuerySet :=
  {| qs_rows := qs_rows qs; qs_order := qs_order qs; qs_limit := Some n |}.

(** [Sum('queries__time_taken')]: the sum of the non-null times of the row's
    queries, null when there is none. *)
Definition non_null (l : list (option Q)) : list Q :=
  flat_map (fun o => match o with Some t => [t] | None => [] end) l.

Definition db_time (r : Request) : option Q :=
  match non_null (query_times r) with
  | [] => None
  | ts => Some (fold_right Qplus 0%Q ts)
  end.

(** [x__gte=0] on a nullable number: null does not pass. *)
Definition gte_0 (x : option Q) : bool :=
  match x with Some t => Qle_bool 0 t | None => false end.

(** ** [SORT_OPTIONS] *)

Record SortOption : Type := {
  opt_label : string;
  additional_query_filter : option (QuerySet -> QuerySet)
}.

Definition SORT_OPTIONS : list (string * SortOption) :=
  [ ("start_time",
     {| opt_label := "Recent"; additional_query_filter := None |});
    ("path",
     {| opt_label := "Path"; additional_query_filter := None |});
    ("num_sql_queries",
     {| opt_label := "Num. Queries"; additional_query_filter := None |});
    ("time_taken",
     {| opt_label := "Time";
        additional_query_filter :=
          Some (fun qs => qs_filter (fun r => gte_0 (time_taken r)) qs) |});
    ("db_time",
     {| opt_label := "DB Time";
        additional_query_filter :=
          Some (fun qs => qs_filter (fun r => gte_0 (db_time r)) qs) |}) ].

(** [d.get(k)] / [k in d] / [d[k]] on a dict with string keys. *)
Fixpoint dict_get {A : Type} (k : string) (d : list (string * A)) : option A :=
  match d with
  | [] => None
  | (k', v) :: r => if String.eqb k' k then Some v else dict_get k r
  end.

(** A [{field, dir}] dict of a sort list; either key may be missing. *)
Record SortItem : Type := {
  item_field : option string;
  item_dir : option string
}.

Definition DEFAULT_SORT_LIST : list SortItem :=
  [ {| item_field := Some "start_time"; item_dir := Some "DESC" |} ].

Definition get_or {A : Type} (o : option A) (d : A) : A :=
  match o with Some a => a | None => d end.

(** One turn of the loop of [_apply_sort], on the pair
    [(query_set, order_fields)]. *)
Definition sort_step (acc : QuerySet * list string) (item : SortItem)
  : QuerySet * list string :=
  let field := get_or (item_field item) "start_time" in
  let direction := get_or (item_dir item) "DESC" in
  match dict_get field SORT_OPTIONS with
  | None => acc
  | Some opt =>
    let query_set :=
      match additional_query_filter opt with
      | Some f => f (fst acc)
      | None => fst acc
      end in
    let prefix := if String.eqb direction "DESC" then "-" else "" in
    (query_set, (snd acc ++ [String.append prefix field])%list)
  end.

(** The source function.
<<
    order_fields = []
    for item in sort_list:
        field = item.get('field', 'start_time')
        direction = item.get('dir', 'DESC')
        if field not in SORT_OPTIONS: continue
        opt = SORT_OPTIONS[field]
        if opt['additional_query_filter'] is not None:
            query_set = opt['additional_query_filter'](query_set)
        prefix = '-' if direction == 'DESC' else ''
        order_fields.append(f'{prefix}{field}')
    if order_fields:
        query_set = query_set.order_by( *order_fields)
    return query_set
>> *)
Definition _apply_sort (query_set : QuerySet) (sort_list : list SortItem) : QuerySet :=
  let acc := fold_left sort_step sort_list (query_set, []) in
  match snd acc with
  | [] => fst acc
  | order_fields => qs_order_by order_fields (fst acc)
  end.

(** ** Evaluation of a query set *)

Definition compare_option_Q (x y : option Q) : comparison :=
  match x, y with
  | None, None => Eq
  | None, Some _ => Lt
  | Some _, None => Gt
  | Some a, Some b => Qcompare a b
  end.

(** Comparison of two rows on one column. *)
Definition compare_on (column : string) (a b : Request) : comparison :=
  if String.eqb column "start_time" then Z.compare (start_time a) (start_time b)
  else if String.eqb column "path" then String.compare (path a) (path b)
  else if String.eqb column "num_sql_queries"
       then Z.compare (num_sql_queries a) (num_sql_queries b)
  else if String.eqb column "time_taken"
       then compare_option_Q (time_taken a) (time_taken b)
  else if String.eqb column "db_time"
       then compare_option_Q (db_time a) (db_time b)
  else Eq.

(** Comparison on an [ORDER BY] list: the first column that tells the rows
    apart decides; a leading [-] reverses the column. *)
Fixpoint compare_rows (order : list string) (a b : Request) : comparison :=
  match order with
  | [] => Eq
  | f :: rest =>
    let c :=
      match f with
      | String "-" column => CompOpp (compare_on column a b)
      | _ => compare_on f a b
      end in
    match c with
    | Eq => compare_rows rest a b
    | _ => c
    end
  end.

Fixpoint insert_row (order : list string) (x : Request) (l : list Request) : list Request :=
  match l with
  | [] => [x]
  | h :: t =>
    match compare_rows order x h with
    | Gt => h :: insert_row order x t
    | _ => x :: l
    end
  end.

Fixpoint sort_rows (order : list string) (l : list Request) : list Request :=
  match l with
  | [] => []
  | x :: r => insert_row order x (sort_rows order r)
  end.

(** The rows a query set yields: sorted on its ordering (rows that compare
    equal keep their order), cut at its slice bound. *)
Definition evaluate (qs : QuerySet) : list Request :=
  let sorted := sort_rows (qs_order qs) (qs_rows qs) in
  match qs_limit qs with
  | Some n => firstn n sorted
  | None => sorted
  end.

(** ** [RequestsView._get_objects] *)

Inductive Exception : Type :=
| RuntimeError (msg : string)
| ValueError (msg : string)
| OtherError (msg : string).

(** What a call does: it returns a value or raises. *)
Inductive outcome (A : Type) : Type :=
| Return (a : A)
| Raise (e : Exception).

Arguments Return {A} a.
Arguments Raise {A} e.

(** A filter object of [silk.request_filters], as [_get_objects] uses it:
    [f.contribute_to_query_set(query_set)] and [query_set.filter(f)]. *)
Record BaseFilter : Type := {
  contribute_to_query_set : QuerySet -> QuerySet;
  matches : Request -> bool
}.

(** The [show] argument: not passed (the sentinel), [None], or a number. *)
Inductive ShowArg : Type :=
| ShowNotSet
| ShowNone
| ShowInt (n : Z).

(** Truth value of an optional string: [None] and the empty string are
    false. *)
Definition truthy (s : option string) : bool :=
  match s with
  | Some s => negb (String.eqb s "")
  | None => false
  end.

Definition default_order_by : string := "start_time".
Definition default_order_dir : string := "DESC".
Definition default_show : Z := 25.

Definition dq : string := String "034"%char EmptyString.

(** The source method, on the request table [Request.objects.all()]. *)
Definition _get_objects (table : list Request) (show : ShowArg)
  (order_by order_dir path : option string) (filters : list BaseFilter)
  (sort_list : list SortItem) : outcome QuerySet :=
  let query_set := {| qs_rows := table; qs_order := []; qs_limit := None |} in
  let sorted :=
    match sort_list with
    | _ :: _ => Return (_apply_sort query_set sort_list)
    | [] =>
      let order_by := if truthy order_by then get_or order_by "" else default_order_by in
      let order_dir := if truthy order_dir then get_or order_dir "" else default_order_dir in
      match dict_get order_by SORT_OPTIONS with
      | None => Raise (RuntimeError ("Unknown order_by: " ++ dq ++ order_by ++ dq))
      | Some _ =>
        Return (_apply_sort query_set
                  [ {| item_field := Some order_by; item_dir := Some order_dir |} ])
      end
    end in
  match sorted with
  | Raise e => Raise e
  | Return query_set =>
    let query_set :=
      if truthy path
      then qs_filter (fun r => String.eqb (Models.path r) (get_or path "")) query_set
      else query_set in
    let query_set :=
      fold_left (fun qs f => qs_filter (matches f) (contribute_to_query_set f qs))
                filters query_set in
    let show := match show with ShowNotSet => ShowInt default_show | _ => show end in
    match show with
    | ShowInt n =>
      if (n <? 0)%Z then Raise (ValueError "Negative indexing is not supported.")
      else Return (qs_slice (Z.to_nat n) query_set)
    | _ => Return query_set
    end
  end.

(** ** Filter state and [RequestsView.post] *)

(** A value kept in the session state: a string, a number, or the dict of a
    filter. *)
Inductive Value : Type :=
| VStr (s : string)
| VInt (n : Z)
| VFilter (d : list (string * string)).

(** The session: the filter state under [SESSION_KEY_FILTERS] and the sort
    list under [SESSION_KEY_SORT], each absent at first. *)
Record Session : Type := {
  request_filters : option (gmap string Value);
  request_sort : option (list SortItem)
}.

(** Modelled from the spec: [FiltersManager] of [silk/request_filters.py],
    which is not among the sources.  [get] returns the current selection
    state, the empty state when none is stored; [save] replaces it. *)
Definition filters_manager_get (session : Session) : gmap string Value :=
  get_or (request_filters session) ∅.

Definition filters_manager_save (session : Session) (filters : gmap string Value)
  : Session :=
  {| request_filters := Some filters; request_sort := request_sort session |}.

(** [RequestsView._save_sort_list]. *)
Definition _save_sort_list (session : Session) (sort_list : list SortItem) : Session :=
  {| request_filters := request_filters session; request_sort := Some sort_list |}.

(** What [json.loads] makes of the [sort_criteria] field: an error, a list of
    sort items, or another value. *)
Inductive Decoded : Type :=
| DecodeError
| DecodedList (l : list SortItem)
| DecodedOther.

(** [{k: v for k, v in m.items() if k in keys}]. *)
Definition dict_keep (keys : list string) (m : gmap string Value) : gmap string Value :=
  filter (fun kv => kv.1 ∈ keys) m.

(** [{**a, **b}]: the keys of [b] over those of [a]. *)
Definition dict_merge (a b : gmap string Value) : gmap string Value := b ∪ a.

Definition non_filter_keys : list string :=
  ["show"; "order_by"; "order_dir"; "view_style"].

(** [any(k.startswith('filter-') for k in request.POST)]. *)
Definition is_filter_submit (POST : gmap string Value) : bool :=
  existsb (fun kv => String.prefix "filter-" kv.1) (map_to_list POST).

Section Post.

(** [json.loads] on the submitted sort criteria, and the dict
    [{ident: f.as_dict() for ident, f in filters_from_request(request).items()}]
    (or the exception building it raises); both are code outside the
    sources. *)
Variable json_loads : string -> Decoded.
Variable filters_from_request : gmap string Value -> outcome (gmap string Value).

(** The source method, up to the final [render]: the session it leaves and
    the exception it raised, if any.  [POST] gives the submitted value of each
    submitted key. *)
Definition post (session : Session) (POST : gmap string Value)
  : Session * option Exception :=
  let previous_session := filters_manager_get session in
  let session :=
    match POST !! "sort_criteria" with
    | Some (VStr raw) =>
      if String.eqb raw "" then session
      else
        match json_loads raw with
        | DecodedList [] => _save_sort_list session DEFAULT_SORT_LIST
        | DecodedList sort_list => _save_sort_list session sort_list
        | _ => session
        end
    | _ => session
    end in
  if bool_decide (is_Some (POST !! "clear_filters")) then
    (filters_manager_save session
       (dict_keep ["show"; "view_style"] previous_session), None)
  else if is_filter_submit POST then
    match filters_from_request POST with
    | Raise e => (session, Some e)
    | Return submitted =>
      (filters_manager_save session
         (dict_merge
            (dict_keep ["show"; "order_by"; "order_dir"; "view_style"] previous_session)
            submitted), None)
    end
  else
    let updated := dict_keep non_filter_keys POST in
    (filters_manager_save session (dict_merge previous_session updated), None).

End Post.

(** ** Vocabulary of the statements *)


(** The entry's field is a key of [SORT_OPTIONS]. *)
Definition known (item : SortItem) : bool :=
  match dict_get (get_or (item_field item) "start_time") SORT_OPTIONS with
  | Some _ => true
  | None => false
  end.

(** The [ORDER BY] field the entry contributes: none when its field is
    unknown. *)
Definition order_string (item : SortItem) : list string :=
  let field := get_or (item_field item) "start_time" in
  let direction := get_or (item_dir item) "DESC" in
  match dict_get field SORT_OPTIONS with
  | None => []
  | Some _ => [String.append (if String.eqb direction "DESC" then "-" else "") field]
  end.


Definition is_runtime_error {A : Type} (o : outcome A) : bool :=
  match o with
  | Raise (RuntimeError _) => true
  | _ => false
  end.

Definition table_of (rows : list Request) : QuerySet :=
  {| qs_rows := rows; qs_order := []; qs_limit := None |}.

Definition timed (pk : Z) (t : option Q) : Request :=
  {| req_pk := pk; path := "/"; start_time := pk; num_sql_queries := 0;
     time_taken := t; query_times := [] |}.

Definition by_field (f : string) : SortItem :=
  {| item_field := Some f; item_dir := Some "ASC" |}.

(** The session and the submitted form of the design document's example. *)
Definition session_path_25 : Session :=
  {| request_filters :=
       Some (<["order_by" := VStr "path"]> (<["show" := VInt 25]> ∅));
     request_sort := None |}.

Definition form_show_50 : gmap string Value := <["show" := VInt 50]> ∅.

Definition form_clear : gmap string Value := <["clear_filters" := VStr "1"]> ∅.

(** The filter state a call of [post] leaves. *)
Definition state_after (result : Session * option Exception) : gmap string Value :=
  filters_manager_get (fst result).

(** ** The sort pipeline *)




Lemma sort_step_unknown (acc : QuerySet * list string) (item : SortItem) :
  known item = false -> sort_step acc item = acc.
Proof.
  unfold known, sort_step. cbv zeta.
  destruct (dict_get (get_or (item_field item) "start_time") SORT_OPTIONS);
    [discriminate | reflexivity].
Qed.

Lemma fold_sort_step_known (sort_list : list SortItem) :
  forall acc,
    fold_left sort_step (List.filter known sort_list) acc
    = fold_left sort_step sort_list acc.
Proof.
  induction sort_list as [|item l IH]; intros acc; [reflexivity|].
  simpl. destruct (known item) eqn:E; simpl.
  - apply IH.
  - rewrite (sort_step_unknown acc item E). apply IH.
Qed.




Lemma sort_step_order (acc : QuerySet * list string) (item : SortItem) :
  snd (sort_step acc item) = (snd acc ++ order_string item)%list
  /\ qs_order (fst (sort_step acc item)) = qs_order (fst acc).
Proof.
  unfold sort_step, order_string. cbv zeta.
  remember (get_or (item_field item) "start_time") as field eqn:Ef. clear Ef.
  cbn [dict_get SORT_OPTIONS].
  destruct (String.eqb_spec "start_time" field) as [<- | _];
    [cbn; split; reflexivity|].
  destruct (String.eqb_spec "path" field) as [<- | _];
    [cbn; split; reflexivity|].
  destruct (String.eqb_spec "num_sql_queries" field) as [<- | _];
    [cbn; split; reflexivity|].
  destruct (String.eqb_spec "time_taken" field) as [<- | _];
    [cbn; split; reflexivity|].
  destruct (String.eqb_spec "db_time" field) as [<- | _];
    [cbn; split; reflexivity|].
  rewrite app_nil_r. split; reflexivity.
Qed.

Lemma fold_sort_step_order (sort_list : list SortItem) :
  forall acc,
    snd (fold_left sort_step sort_list acc)
    = (snd acc ++ flat_map order_string sort_list)%list
    /\ qs_order (fst (fold_left sort_step sort_list acc)) = qs_order (fst acc).
Proof.
  induction sort_list as [|item l IH]; intros acc.
  - simpl. rewrite app_nil_r. split; reflexivity.
  - cbn [fold_left flat_map]. destruct (IH (sort_step acc item)) as [IH1 IH2].
    destruct (sort_step_order acc item) as [S1 S2].
    rewrite IH1, IH2, S1, S2, app_assoc. split; reflexivity.
Qed.

Lemma apply_sort_order (qs : QuerySet) (sort_list : list SortItem) :
  qs_order (_apply_sort qs sort_list)
  = match flat_map order_string sort_list with
    | [] => qs_order qs
    | order_fields => order_fields
    end.
Proof.
  unfold _apply_sort. cbv zeta.
  destruct (fold_sort_step_order sort_list (qs, [])) as [H1 H2].
  cbn [fst snd app] in H1, H2. rewrite H1.
  destruct (flat_map order_string sort_list); [exact H2 | reflexivity].
Qed.




(** ** C5 *)

(** C5, as stated, fails: in the legacy form ([sort_list] empty) an unknown
    [order_by] makes [_get_objects] raise [RuntimeError]. *)
Lemma legacy_unknown_order_by_counterexample :
  _get_objects [] ShowNone (Some "bogus") None None [] []
  = Raise (RuntimeError ("Unknown order_by: " ++ dq ++ "bogus" ++ dq)).
Proof. reflexivity. Qed.

(** C5 (amended).  [_apply_sort] skips the entries whose field is no key of
    [SORT_OPTIONS]: its result is the result on the remaining entries, ordered
    on the fields of the known entries (one compound [ORDER BY], in list
    order), and it raises nothing.  [_get_objects] with a non-empty sort list raises no
    [RuntimeError] whatever the fields.  In the legacy form (empty sort list)
    an unknown non-empty [order_by] raises [RuntimeError]. *)
Theorem unknown_sort_field_skipped :
  (forall (qs : QuerySet) (sort_list : list SortItem),
      _apply_sort qs sort_list = _apply_sort qs (List.filter known sort_list)
      /\ qs_order (_apply_sort qs sort_list)
         = match flat_map order_string sort_list with
           | [] => qs_order qs
           | order_fields => order_fields
           end)
  /\ (forall table show order_by order_dir path filters sort_list,
        sort_list <> [] ->
        is_runtime_error
          (_get_objects table show order_by order_dir path filters sort_list)
        = false)
  /\ (forall table show (order_by : string) order_dir path filters,
        order_by <> "" ->
        dict_get order_by SORT_OPTIONS = None ->
        _get_objects table show (Some order_by) order_dir path filters []
        = Raise (RuntimeError ("Unknown order_by: " ++ dq ++ order_by ++ dq))).
Proof.
  split; [|split].
  - intros qs sort_list. split; [|apply apply_sort_order].
    unfold _apply_sort. rewrite fold_sort_step_known. reflexivity.
  - intros table show order_by order_dir path filters sort_list Hne.
    unfold _get_objects. destruct sort_list as [|item l]; [contradiction|].
    cbv zeta.
    destruct show as [| |n]; try reflexivity;
      match goal with |- context [(?n <? 0)%Z] => destruct (n <? 0)%Z end;
      reflexivity.
  - intros table show order_by order_dir path filters Hne Hget.
    unfold _get_objects. cbv zeta.
    assert (Ht : truthy (Some order_by) = true).
    { simpl. apply negb_true_iff. apply String.eqb_neq. exact Hne. }
    rewrite Ht. cbn [get_or]. rewrite Hget. reflexivity.
Qed.

(** The hypotheses of C5 (amended) hold for the stale field "bogus". *)
Lemma unknown_sort_field_skipped_witness :
  is_runtime_error
    (_get_objects [] ShowNone None None None [] [by_field "bogus"]) = false
  /\ _get_objects [] ShowNone (Some "bogus") None None [] []
     = Raise (RuntimeError ("Unknown order_by: " ++ dq ++ "bogus" ++ dq)).
Proof.
  split.
  - apply (proj1 (proj2 unknown_sort_field_skipped)). discriminate.
  - apply (proj2 (proj2 unknown_sort_field_skipped)); [discriminate | reflexivity].
Defined.

(** ** C9 *)



(** ** The filter state *)

Lemma lookup_dict_keep_in (keys : list string) (m : gmap string Value) (k : string) :
  k ∈ keys -> dict_keep keys m !! k = m !! k.
Proof.
  intros Hk. unfold dict_keep. destruct (m !! k) as [v|] eqn:E.
  - apply map_lookup_filter_Some. split; [exact E | exact Hk].
  - apply map_lookup_filter_None. left. exact E.
Qed.

Lemma lookup_dict_keep_out (keys : list string) (m : gmap string Value) (k : string) :
  k ∉ keys -> dict_keep keys m !! k = None.
Proof.
  intros Hk. unfold dict_keep. apply map_lookup_filter_None.
  right. intros v _ Hin. apply Hk. exact Hin.
Qed.

Lemma lookup_dict_merge (a b : gmap string Value) (k : string) :
  dict_merge a b !! k = match b !! k with Some v => Some v | None => a !! k end.
Proof.
  unfold dict_merge. destruct (b !! k) as [v|] eqn:E.
  - apply lookup_union_Some_l. exact E.
  - apply lookup_union_r. exact E.
Qed.

Section PostFacts.

Variable json_loads : string -> Decoded.
Variable filters_from_request : gmap string Value -> outcome (gmap string Value).

(** [post], branch by branch, on the filter state. *)
Lemma post_state (session : Session) (POST : gmap string Value) :
  state_after (post json_loads filters_from_request session POST)
  = if bool_decide (is_Some (POST !! "clear_filters"))
    then dict_keep ["show"; "view_style"] (filters_manager_get session)
    else if is_filter_submit POST
    then match filters_from_request POST with
         | Raise _ => filters_manager_get session
         | Return submitted =>
           dict_merge (dict_keep non_filter_keys (filters_manager_get session))
                      submitted
         end
    else dict_merge (filters_manager_get session) (dict_keep non_filter_keys POST).
Proof using Type.
  unfold state_after, post. cbv zeta.
  set (session' := match POST !! "sort_criteria" with
                   | Some (VStr raw) => _
                   | _ => session
                   end).
  assert (Hs : filters_manager_get session' = filters_manager_get session).
  { subst session'. destruct (POST !! "sort_criteria") as [[raw| |]|]; try reflexivity.
    destruct (String.eqb raw ""); [reflexivity|].
    destruct (json_loads raw) as [|[|]|]; reflexivity. }
  destruct (bool_decide (is_Some (POST !! "clear_filters"))); [reflexivity|].
  destruct (is_filter_submit POST); [|reflexivity].
  destruct (filters_from_request POST); [reflexivity | exact Hs].
Qed.

Lemma post_raises (session : Session) (POST : gmap string Value) :
  POST !! "clear_filters" = None -> is_filter_submit POST = false ->
  snd (post json_loads filters_from_request session POST) = None.
Proof using Type.
  intros Hc Hf. unfold post. cbv zeta.
  rewrite Hc, Hf. rewrite bool_decide_false by (intros [x Hx]; discriminate).
  reflexivity.
Qed.

End PostFacts.

(** ** C6 *)

(** C6. In the toolbar branch of [post] (no [clear_filters], no [filter-]
    key) the new state is the old one overlaid with the submitted display
    keys: a key of [non_filter_keys] that was submitted holds the submitted
    value, every other key holds what it held (or stays absent), and nothing
    is raised.  Saving [{show: 50}] over [{order_by: path, show: 25}] gives
    [{order_by: path, show: 50}]. *)
Theorem toolbar_save_merges :
  (forall json_loads filters_from_request (session : Session)
          (POST : gmap string Value),
      POST !! "clear_filters" = None ->
      is_filter_submit POST = false ->
      snd (post json_loads filters_from_request session POST) = None
      /\ forall k : string,
          state_after (post json_loads filters_from_request session POST) !! k
          = if bool_decide (k ∈ non_filter_keys)
            then match POST !! k with
                 | Some v => Some v
                 | None => filters_manager_get session !! k
                 end
            else filters_manager_get session !! k)
  /\ (forall json_loads filters_from_request,
        state_after (post json_loads filters_from_request session_path_25 form_show_50)
        = <["order_by" := VStr "path"]> (<["show" := VInt 50]> ∅)).
Proof.
  split.
  - intros json_loads filters_from_request session POST Hc Hf.
    split; [apply post_raises; assumption|].
    intros k. rewrite post_state, Hf.
    rewrite bool_decide_false by (rewrite Hc; intros [x Hx]; discriminate).
    rewrite lookup_dict_merge.
    destruct (bool_decide_reflect (k ∈ non_filter_keys)) as [Hk | Hk].
    + rewrite (lookup_dict_keep_in _ _ _ Hk). reflexivity.
    + rewrite (lookup_dict_keep_out _ _ _ Hk). reflexivity.
  - intros json_loads filters_from_request. reflexivity.
Qed.

(** The hypotheses of C6 hold for the form of the example. *)
Lemma toolbar_save_merges_witness :
  state_after (post (fun _ => DecodeError) (fun _ => Return ∅)
                    session_path_25 form_show_50) !! "show"
  = Some (VInt 50).
Proof.
  rewrite (proj2 (proj1 toolbar_save_merges (fun _ => DecodeError)
                    (fun _ => Return ∅) session_path_25 form_show_50
                    eq_refl eq_refl) "show").
  reflexivity.
Defined.

(** ** C10 *)

(** C10. Whatever is posted, a display key 'show' or 'view_style' that the
    filter state holds is still held after [post]: with its old value, or
    with the value submitted under that key (toolbar form), or with the entry
    the submitted filter form yields under that key. *)
Theorem post_keeps_display_keys :
  forall json_loads filters_from_request (session : Session)
         (POST : gmap string Value) (k : string) (v : Value),
    k = "show" \/ k = "view_style" ->
    filters_manager_get session !! k = Some v ->
    exists v',
      state_after (post json_loads filters_from_request session POST) !! k = Some v'
      /\ (v' = v
          \/ POST !! k = Some v'
          \/ exists submitted,
               filters_from_request POST = Return submitted
               /\ submitted !! k = Some v').
Proof.
  intros json_loads filters_from_request session POST k v Hk Hv.
  assert (Hk2 : k ∈ ["show"; "view_style"])
    by (apply list_elem_of_In; destruct Hk; subst k; simpl; tauto).
  assert (Hk4 : k ∈ non_filter_keys)
    by (apply list_elem_of_In; destruct Hk; subst k; simpl; tauto).
  rewrite post_state.
  destruct (bool_decide (is_Some (POST !! "clear_filters"))).
  - exists v. rewrite (lookup_dict_keep_in _ _ _ Hk2). split; [exact Hv | left; reflexivity].
  - destruct (is_filter_submit POST).
    + destruct (filters_from_request POST) as [submitted | e] eqn:Ef.
      * rewrite lookup_dict_merge, (lookup_dict_keep_in _ _ _ Hk4).
        destruct (submitted !! k) as [v'|] eqn:Es.
        -- exists v'. split; [reflexivity|]. right. right.
           exists submitted. split; [reflexivity | exact Es].
        -- exists v. split; [exact Hv | left; reflexivity].
      * exists v. split; [exact Hv | left; reflexivity].
    + rewrite lookup_dict_merge, (lookup_dict_keep_in _ _ _ Hk4).
      destruct (POST !! k) as [v'|] eqn:Ep.
      * exists v'. split; [reflexivity | right; left; reflexivity].
      * exists v. split; [exact Hv | left; reflexivity].
Qed.

(** The hypotheses of C10 hold for the page size of the example session,
    cleared. *)
Lemma post_keeps_display_keys_witness :
  exists v',
    state_after (post (fun _ => DecodeError) (fun _ => Return ∅)
                      session_path_25 form_clear) !! "show" = Some v'
    /\ (v' = VInt 25
        \/ form_clear !! "show" = Some v'
        \/ exists submitted : gmap string Value,
             Return ∅ = Return submitted /\ submitted !! "show" = Some v').
Proof.
  apply (post_keeps_display_keys (fun _ => DecodeError) (fun _ => Return ∅)
           session_path_25 form_clear "show" (VInt 25)).
  - left. reflexivity.
  - reflexivity.
Defined.

End Requests.

(* ===================================================================== *)
(** * The shape of a fingerprint ([fingerprint_query], further facts)     *)
(* ===================================================================== *)

Module FingerprintForm.

Import Fingerprint.

Local Open Scope char_scope.
Local Open Scope nat_scope.

(** ** Vocabulary *)

(** Every whitespace character is a blank that follows no whitespace.
    [prev_space]: the character before is whitespace. *)
Fixpoint single_spaced (prev_space : bool) (s : list ascii) : bool :=
  match s with
  | [] => true
  | c :: r =>
    (if is_space c then Ascii.eqb c " " && negb prev_space else true)
    && single_spaced (is_space c) r
  end.

(** No standalone integer: no run of digits with a word boundary on both
    sides.  [prevw]: the character before is a word character. *)
Fixpoint no_standalone_int (prevw : bool) (s : list ascii) : bool :=
  match s with
  | [] => true
  | c :: r =>
    negb (is_digit c && negb prevw && run_end r)
    && no_standalone_int (is_word c) r
  end.

(** The text is empty or starts with a character that is no whitespace. *)
Definition starts_clean (s : list ascii) : bool :=
  match s with
  | [] => true
  | c :: _ => negb (is_space c)
  end.

Definition no_upper (s : list ascii) : bool :=
  forallb (fun c => negb (is_upper c)) s.

(** The normal form of a fingerprint: no upper-case letter, no whitespace at
    either end, whitespace only as single blanks, no standalone integer and
    at most one single quote. *)
Definition normal_form (s : list ascii) : Prop :=
  no_upper s = true
  /\ starts_clean s = true
  /\ starts_clean (rev s) = true
  /\ single_spaced false s = true
  /\ no_standalone_int false s = true
  /\ count_quotes s <= 1.

(** ** Character facts *)

Lemma is_quote_lower c : is_quote (lower_char c) = is_quote c.
Proof. ascii_cases c. Qed.

Lemma is_digit_lower c : is_digit (lower_char c) = is_digit c.
Proof. ascii_cases c. Qed.

Lemma is_word_lower c : is_word (lower_char c) = is_word c.
Proof. ascii_cases c. Qed.

Lemma is_upper_lower c : is_upper (lower_char c) = false.
Proof. ascii_cases c. Qed.

Lemma is_blank_lower c : Ascii.eqb (lower_char c) " " = Ascii.eqb c " ".
Proof. ascii_cases c. Qed.

Lemma lower_char_twice c : lower_char (lower_char c) = lower_char c.
Proof. ascii_cases c. Qed.

Lemma digit_not_quote c : is_digit c = true -> is_quote c = false.
Proof. intros H. apply word_not_quote, digit_is_word, H. Qed.

Lemma digit_not_space c : is_digit c = true -> is_space c = false.
Proof. intros H. apply word_not_space, digit_is_word, H. Qed.

(** ** Single quotes through the passes *)

Lemma count_quotes_cons c s :
  count_quotes (c :: s) = (if is_quote c then 1 else 0) + count_quotes s.
Proof. unfold count_quotes. simpl. destruct (is_quote c); reflexivity. Qed.

Lemma count_quotes_app a b :
  count_quotes (a ++ b) = count_quotes a + count_quotes b.
Proof. unfold count_quotes. rewrite List.filter_app, length_app. reflexivity. Qed.

Lemma count_quotes_rev s : count_quotes (rev s) = count_quotes s.
Proof. unfold count_quotes. rewrite List.filter_rev, length_rev. reflexivity. Qed.

Lemma no_quote_count (s : list ascii) :
  existsb is_quote s = false <-> count_quotes s = 0.
Proof.
  induction s as [|c s IH]; [split; reflexivity|].
  rewrite count_quotes_cons. simpl. destruct (is_quote c); simpl.
  - split; [discriminate | intros H; lia].
  - exact IH.
Qed.

Lemma scan_strings_no_quote (s : list ascii) :
  existsb is_quote s = false -> scan_strings false s = s.
Proof.
  induction s as [|c s IH]; [reflexivity|].
  simpl. intros H. apply orb_false_iff in H as [Hc Hs].
  rewrite Hc. simpl. f_equal. apply IH, Hs.
Qed.

Lemma scan_strings_quotes (s : list ascii) :
  forall b, count_quotes (scan_strings b s) <= 1.
Proof.
  induction s as [|c s IH]; intros b; [destruct b; simpl; unfold count_quotes; simpl; lia|].
  simpl. destruct b; [apply IH|].
  destruct (is_quote c) eqn:Hc; simpl.
  - destruct (existsb is_quote s) eqn:He.
    + rewrite count_quotes_cons. simpl. apply IH.
    + rewrite (scan_strings_no_quote s He), count_quotes_cons, Hc.
      apply no_quote_count in He. lia.
  - rewrite count_quotes_cons, Hc. apply IH.
Qed.

Lemma scan_strings_fixed (s : list ascii) :
  count_quotes s <= 1 -> scan_strings false s = s.
Proof.
  induction s as [|c s IH]; [reflexivity|].
  rewrite count_quotes_cons. simpl. destruct (is_quote c) eqn:Hc; simpl; intros H.
  - assert (He : existsb is_quote s = false) by (apply no_quote_count; lia).
    rewrite He. f_equal. apply scan_strings_no_quote, He.
  - f_equal. apply IH, H.
Qed.

Lemma scan_numbers_quotes (s : list ascii) :
  forall sk pw, count_quotes (scan_numbers sk pw s) = count_quotes s.
Proof.
  induction s as [|c s IH]; intros sk pw; [reflexivity|].
  simpl. rewrite (count_quotes_cons c s).
  destruct (is_digit c) eqn:Hd.
  - rewrite (digit_not_quote c Hd).
    destruct sk; simpl; [apply IH|].
    destruct (negb pw && run_end s); rewrite count_quotes_cons;
      [|rewrite (digit_not_quote c Hd)]; simpl; apply IH.
  - rewrite andb_false_r. simpl. rewrite count_quotes_cons, IH. reflexivity.
Qed.

Lemma scan_whitespace_quotes (s : list ascii) :
  forall b, count_quotes (scan_whitespace b s) = count_quotes s.
Proof.
  induction s as [|c s IH]; intros b; [reflexivity|].
  simpl. rewrite (count_quotes_cons c s).
  destruct (is_space c) eqn:Hs.
  - rewrite (space_not_quote c Hs). destruct b; [|rewrite count_quotes_cons]; simpl; apply IH.
  - rewrite count_quotes_cons, IH. reflexivity.
Qed.

Lemma lstrip_split (s : list ascii) :
  exists ws, s = ws ++ lstrip s /\ forallb is_space ws = true.
Proof.
  induction s as [|c s (ws & E & Hws)]; [exists []; split; reflexivity|].
  simpl. destruct (is_space c) eqn:Hc.
  - exists (c :: ws). simpl. rewrite Hc, Hws. split; [f_equal; exact E | reflexivity].
  - exists []. split; reflexivity.
Qed.

Lemma rstrip_split (s : list ascii) :
  exists ws, s = rstrip s ++ ws /\ forallb is_space ws = true.
Proof.
  unfold rstrip. destruct (lstrip_split (rev s)) as (ws & E & Hws).
  exists (rev ws). split.
  - rewrite <- rev_app_distr, <- E, rev_involutive. reflexivity.
  - rewrite forallb_forall in *. intros x Hx. apply Hws, in_rev, Hx.
Qed.

Lemma strip_quotes (s : list ascii) : count_quotes (strip s) <= count_quotes s.
Proof.
  unfold strip.
  destruct (lstrip_split s) as (w1 & E1 & _).
  destruct (rstrip_split (lstrip s)) as (w2 & E2 & _).
  rewrite E1 at 2. rewrite E2 at 2. rewrite !count_quotes_app. lia.
Qed.

Lemma lower_quotes (s : list ascii) : count_quotes (lower s) = count_quotes s.
Proof.
  induction s as [|c s IH]; [reflexivity|].
  simpl. rewrite !count_quotes_cons, is_quote_lower, IH. reflexivity.
Qed.

(** ** Standalone integers through the passes *)

Lemma scan_numbers_fixed (s : list ascii) :
  forall pw, no_standalone_int pw s = true -> scan_numbers false pw s = s.
Proof.
  induction s as [|c s IH]; intros pw H; [reflexivity|].
  simpl in H. apply andb_true_iff in H as [Hc Hs]. apply negb_true_iff in Hc.
  simpl. rewrite Hc. f_equal. apply IH, Hs.
Qed.

Lemma run_end_scan_numbers (r : list ascii) :
  run_end (scan_numbers false true r) = run_end r.
Proof.
  induction r as [|c r IH]; [reflexivity|].
  simpl. rewrite andb_false_r. simpl. destruct (is_digit c) eqn:Hd; [|reflexivity].
  rewrite (digit_is_word c Hd). exact IH.
Qed.

Lemma scan_numbers_stable (x : list ascii) :
  (forall pw, no_standalone_int pw (scan_numbers false pw x) = true)
  /\ no_standalone_int false (scan_numbers true true x) = true.
Proof.
  induction x as [|c r [IHa IHb]]; [split; reflexivity|].
  assert (Ha : forall pw, no_standalone_int pw (scan_numbers false pw (c :: r)) = true).
  { intros pw. cbn [scan_numbers andb].
    destruct (is_digit c) eqn:Hd; cbn [andb].
    - destruct (negb pw && run_end r) eqn:Hm.
      + cbn [no_standalone_int].
        change (is_digit "?") with false. change (is_word "?") with false.
        rewrite IHb. reflexivity.
      + cbn [no_standalone_int]. rewrite Hd, (digit_is_word c Hd), IHa.
        rewrite run_end_scan_numbers. cbn [andb]. rewrite Hm. reflexivity.
    - cbn [no_standalone_int]. rewrite Hd, IHa. reflexivity. }
  split; [exact Ha|].
  cbn [scan_numbers andb]. destruct (is_digit c) eqn:Hd; cbn [andb]; [exact IHb|].
  cbn [no_standalone_int]. rewrite Hd, IHa. reflexivity.
Qed.

Lemma run_end_scan_whitespace (r : list ascii) :
  run_end (scan_whitespace false r) = run_end r.
Proof.
  induction r as [|c r IH]; [reflexivity|].
  simpl. destruct (is_space c) eqn:Hs.
  - simpl. rewrite (space_not_digit c Hs), (space_not_word c Hs). reflexivity.
  - simpl. destruct (is_digit c); [exact IH | reflexivity].
Qed.

Lemma scan_whitespace_stable (s : list ascii) :
  forall b pw,
    (b = true -> pw = false) ->
    no_standalone_int pw s = true ->
    no_standalone_int pw (scan_whitespace b s) = true.
Proof.
  induction s as [|c s IH]; intros b pw Hb H; [reflexivity|].
  simpl in H. apply andb_true_iff in H as [Hc Hs].
  simpl. destruct (is_space c) eqn:Hsp.
  - rewrite (space_not_word c Hsp) in Hs. destruct b.
    + rewrite (Hb eq_refl). apply IH; [reflexivity | exact Hs].
    + simpl. apply IH; [reflexivity | exact Hs].
  - simpl. rewrite run_end_scan_whitespace, Hc. simpl.
    apply IH; [discriminate | exact Hs].
Qed.

Lemma lstrip_stable (s : list ascii) :
  no_standalone_int false s = true -> no_standalone_int false (lstrip s) = true.
Proof.
  induction s as [|c s IH]; [reflexivity|].
  intros H. simpl. destruct (is_space c) eqn:Hsp; [|exact H].
  simpl in H. apply andb_true_iff in H as [_ Hs].
  rewrite (space_not_word c Hsp) in Hs. apply IH, Hs.
Qed.

Lemma run_end_app_spaces (r ws : list ascii) :
  forallb is_space ws = true -> run_end (r ++ ws) = run_end r.
Proof.
  intros Hws. induction r as [|c r IH].
  - simpl. destruct ws as [|w ws']; [reflexivity|].
    simpl in Hws. apply andb_true_iff in Hws as [Hw _].
    simpl. rewrite (space_not_digit w Hw), (space_not_word w Hw). reflexivity.
  - simpl. destruct (is_digit c); [exact IH | reflexivity].
Qed.

Lemma prefix_stable (a ws : list ascii) :
  forallb is_space ws = true ->
  forall pw, no_standalone_int pw (a ++ ws) = true -> no_standalone_int pw a = true.
Proof.
  intros Hws. induction a as [|c a IH]; intros pw H; [reflexivity|].
  simpl in H. apply andb_true_iff in H as [Hc Hs].
  simpl. rewrite (run_end_app_spaces a ws Hws) in Hc. rewrite Hc. simpl.
  apply IH, Hs.
Qed.

Lemma strip_stable (s : list ascii) :
  no_standalone_int false s = true -> no_standalone_int false (strip s) = true.
Proof.
  intros H. unfold strip. apply lstrip_stable in H.
  destruct (rstrip_split (lstrip s)) as (ws & E & Hws).
  apply (prefix_stable _ ws Hws). rewrite <- E. exact H.
Qed.

Lemma run_end_lower (r : list ascii) : run_end (lower r) = run_end r.
Proof.
  induction r as [|c r IH]; [reflexivity|].
  simpl. rewrite is_digit_lower, is_word_lower, IH. reflexivity.
Qed.

Lemma lower_stable (s : list ascii) :
  forall pw, no_standalone_int pw (lower s) = no_standalone_int pw s.
Proof.
  induction s as [|c s IH]; intros pw; [reflexivity|].
  simpl. rewrite is_digit_lower, is_word_lower, IH.
  fold (lower s). rewrite run_end_lower. reflexivity.
Qed.

(** ** Whitespace through the passes *)

Lemma scan_whitespace_fixed (s : list ascii) :
  forall b, single_spaced b s = true -> scan_whitespace b s = s.
Proof.
  induction s as [|c s IH]; intros b H; [reflexivity|].
  simpl in H. apply andb_true_iff in H as [Hc Hs].
  simpl. destruct (is_space c) eqn:Hsp.
  - apply andb_true_iff in Hc as [Hc Hb]. apply negb_true_iff in Hb. subst b.
    apply Ascii.eqb_eq in Hc. subst c. f_equal. apply IH, Hs.
  - f_equal. apply IH, Hs.
Qed.

Lemma scan_whitespace_single (s : list ascii) :
  forall b, single_spaced b (scan_whitespace b s) = true.
Proof.
  induction s as [|c s IH]; intros b; [reflexivity|].
  simpl. destruct (is_space c) eqn:Hsp.
  - destruct b; [apply IH|]. simpl. apply IH.
  - simpl. rewrite Hsp. apply IH.
Qed.

Lemma single_spaced_weaken (s : list ascii) :
  single_spaced true s = true -> single_spaced false s = true.
Proof.
  destruct s as [|c s]; [reflexivity|]. simpl.
  destruct (is_space c); [rewrite andb_false_r; discriminate | trivial].
Qed.

Lemma lstrip_single (s : list ascii) :
  single_spaced false s = true -> single_spaced false (lstrip s) = true.
Proof.
  induction s as [|c s IH]; [reflexivity|].
  intros H. simpl. destruct (is_space c) eqn:Hsp; [|exact H].
  simpl in H. rewrite Hsp in H. apply andb_true_iff in H as [_ Hs].
  apply IH, single_spaced_weaken, Hs.
Qed.

Lemma prefix_single (a w : list ascii) :
  forall b, single_spaced b (a ++ w) = true -> single_spaced b a = true.
Proof.
  induction a as [|c a IH]; intros b H; [reflexivity|].
  simpl in H. apply andb_true_iff in H as [Hc Hs].
  simpl. rewrite Hc. apply IH, Hs.
Qed.

Lemma strip_single (s : list ascii) :
  single_spaced false s = true -> single_spaced false (strip s) = true.
Proof.
  intros H. unfold strip. apply lstrip_single in H.
  destruct (rstrip_split (lstrip s)) as (ws & E & _).
  apply (prefix_single _ ws). rewrite <- E. exact H.
Qed.

Lemma lower_single (s : list ascii) :
  forall b, single_spaced b (lower s) = single_spaced b s.
Proof.
  induction s as [|c s IH]; intros b; [reflexivity|].
  simpl. rewrite is_space_lower, is_blank_lower, IH. reflexivity.
Qed.

(** ** The ends *)

Lemma lstrip_clean (s : list ascii) : starts_clean (lstrip s) = true.
Proof.
  induction s as [|c s IH]; [reflexivity|].
  simpl. destruct (is_space c) eqn:Hsp; [exact IH|]. simpl. rewrite Hsp. reflexivity.
Qed.

Lemma lstrip_fixed (s : list ascii) : starts_clean s = true -> lstrip s = s.
Proof.
  destruct s as [|c s]; [reflexivity|]. simpl. intros H.
  apply negb_true_iff in H. rewrite H. reflexivity.
Qed.

Lemma strip_clean (s : list ascii) :
  starts_clean (strip s) = true /\ starts_clean (rev (strip s)) = true.
Proof.
  unfold strip. split.
  - pose proof (lstrip_clean s) as H.
    destruct (rstrip_split (lstrip s)) as (ws & E & _).
    destruct (rstrip (lstrip s)) as [|c r]; [reflexivity|].
    rewrite E in H. exact H.
  - unfold rstrip. rewrite rev_involutive. apply lstrip_clean.
Qed.

Lemma strip_fixed (s : list ascii) :
  starts_clean s = true -> starts_clean (rev s) = true -> strip s = s.
Proof.
  intros H1 H2. unfold strip, rstrip.
  rewrite (lstrip_fixed s H1), (lstrip_fixed (rev s) H2). apply rev_involutive.
Qed.

Lemma lower_clean (s : list ascii) : starts_clean (lower s) = starts_clean s.
Proof. destruct s as [|c s]; [reflexivity|]. simpl. rewrite is_space_lower. reflexivity. Qed.

Lemma lower_no_upper (s : list ascii) : no_upper (lower s) = true.
Proof.
  induction s as [|c s IH]; [reflexivity|].
  simpl. rewrite is_upper_lower. exact IH.
Qed.

Lemma lower_fixed (s : list ascii) : no_upper s = true -> lower s = s.
Proof. apply lower_plain. Qed.

(** ** Normal form *)

Lemma fingerprint_chars_normal (sql : list ascii) :
  normal_form (fingerprint_chars sql).
Proof.
  rewrite fingerprint_chars_scan.
  set (n := scan_numbers false false (scan_strings false sql)).
  set (w := scan_whitespace false n).
  unfold normal_form.
  destruct (strip_clean w) as [Hc1 Hc2].
  split; [apply lower_no_upper|].
  split; [rewrite lower_clean; exact Hc1|].
  split; [unfold lower; rewrite <- map_rev; apply (eq_trans (lower_clean _)); exact Hc2|].
  split; [rewrite lower_single; apply strip_single, scan_whitespace_single|].
  split.
  - rewrite lower_stable. apply strip_stable.
    apply scan_whitespace_stable; [discriminate|].
    apply (proj1 (scan_numbers_stable _)).
  - rewrite lower_quotes. pose proof (strip_quotes w) as Hs.
    subst w n. rewrite scan_whitespace_quotes, scan_numbers_quotes in Hs.
    pose proof (scan_strings_quotes sql false). lia.
Qed.

Lemma fingerprint_chars_fixed (s : list ascii) :
  normal_form s -> fingerprint_chars s = s.
Proof.
  intros (Hu & Hc1 & Hc2 & Hw & Hn & Hq).
  rewrite fingerprint_chars_scan.
  rewrite (scan_strings_fixed s Hq), (scan_numbers_fixed s false Hn).
  rewrite (scan_whitespace_fixed s false Hw), (strip_fixed s Hc1 Hc2).
  apply lower_fixed, Hu.
Qed.

(** ** Lengths *)

Lemma scan_strings_length (s : list ascii) :
  forall b, List.length (scan_strings b s) <= List.length s.
Proof.
  induction s as [|c s IH]; intros b; [destruct b; simpl; lia|].
  simpl. destruct b.
  - specialize (IH (negb (is_quote c))). lia.
  - destruct (is_quote c && existsb is_quote s); simpl.
    + specialize (IH true). lia.
    + specialize (IH false). lia.
Qed.

Lemma scan_numbers_length (s : list ascii) :
  forall sk pw, List.length (scan_numbers sk pw s) <= List.length s.
Proof.
  induction s as [|c s IH]; intros sk pw; [simpl; lia|].
  simpl. destruct (sk && is_digit c).
  - specialize (IH true true). lia.
  - destruct (is_digit c && negb pw && run_end s); simpl.
    + specialize (IH true true). lia.
    + specialize (IH false (is_word c)). lia.
Qed.

Lemma scan_whitespace_length (s : list ascii) :
  forall b, List.length (scan_whitespace b s) <= List.length s.
Proof.
  induction s as [|c s IH]; intros b; [simpl; lia|].
  simpl. destruct (is_space c); [destruct b|]; simpl.
  - specialize (IH true). lia.
  - specialize (IH true). lia.
  - specialize (IH false). lia.
Qed.

Lemma strip_length (s : list ascii) : List.length (strip s) <= List.length s.
Proof.
  unfold strip.
  destruct (lstrip_split s) as (w1 & E1 & _).
  destruct (rstrip_split (lstrip s)) as (w2 & E2 & _).
  rewrite E1 at 2. rewrite E2 at 2. rewrite !length_app. lia.
Qed.

Lemma string_length_of_list (l : list ascii) :
  String.length (string_of_list_ascii l) = List.length l.
Proof. induction l as [|c l IH]; [reflexivity|]. simpl. rewrite IH. reflexivity. Qed.

Lemma list_length_of_string (s : string) :
  List.length (list_ascii_of_string s) = String.length s.
Proof. induction s as [|c s IH]; [reflexivity|]. simpl. rewrite IH. reflexivity. Qed.

(** ** Theorems *)

(** X1. Every fingerprint (of an ASCII text) is in normal form: it has no
    upper-case letter, no whitespace at either end, whitespace only as
    single blanks, no standalone integer, and at most one single quote (an
    unmatched last one). *)
Theorem fingerprint_is_normal :
  forall sql : string, normal_form (chars (fingerprint_query sql)).
Proof.
  intros sql. unfold fingerprint_query, chars.
  rewrite list_ascii_roundtrip. apply fingerprint_chars_normal.
Qed.

(** X2. Fingerprinting (of ASCII texts) is idempotent: the fingerprint of
    a fingerprint is that fingerprint. *)
Theorem fingerprint_idempotent :
  forall sql : string,
    fingerprint_query (fingerprint_query sql) = fingerprint_query sql.
Proof.
  intros sql. unfold fingerprint_query.
  rewrite list_ascii_roundtrip. f_equal.
  apply fingerprint_chars_fixed, fingerprint_chars_normal.
Qed.

(** X3. The ASCII texts that are their own fingerprint are exactly the
    texts in normal form. *)
Theorem fingerprint_fixed_points :
  forall s : string, fingerprint_query s = s <-> normal_form (chars s).
Proof.
  intros s. split.
  - intros E. rewrite <- E. unfold fingerprint_query, chars.
    rewrite list_ascii_roundtrip. apply fingerprint_chars_normal.
  - intros H. unfold fingerprint_query. unfold chars in H.
    rewrite (fingerprint_chars_fixed _ H). apply string_of_list_ascii_of_string.
Qed.

(** X4. The fingerprint of an ASCII text is never longer than the
    text. *)
Theorem fingerprint_not_longer :
  forall sql : string,
    String.length (fingerprint_query sql) <= String.length sql.
Proof.
  intros sql. unfold fingerprint_query.
  rewrite string_length_of_list, fingerprint_chars_scan.
  unfold lower. rewrite length_map, <- list_length_of_string.
  pose proof (strip_length
    (scan_whitespace false
       (scan_numbers false false (scan_strings false (list_ascii_of_string sql))))).
  pose proof (scan_whitespace_length
    (scan_numbers false false (scan_strings false (list_ascii_of_string sql))) false).
  pose proof (scan_numbers_length (scan_strings false (list_ascii_of_string sql)) false false).
  pose proof (scan_strings_length (list_ascii_of_string sql) false).
  lia.
Qed.

End FingerprintForm.

(* ===================================================================== *)
(** * Double-quoted identifiers ([fingerprint_query])                     *)
(* ===================================================================== *)

Module QuotedIdentifier.

Import Fingerprint FingerprintForm.

Local Open Scope char_scope.
Local Open Scope nat_scope.
Local Open Scope list_scope.

(** The identifier [w] between double quotes. *)
Definition quoted (w : list ascii) : list ascii := dquote :: w ++ [dquote].

(** The identifier is as the passes after the literal pass leave a text: no
    upper-case letter, whitespace only as single blanks, no standalone
    integer. *)
Definition kept_as_written (w : list ascii) : bool :=
  no_upper w && single_spaced false w && no_standalone_int false w.

(** ** A segment that ends before a character of no class *)

Lemma run_end_app_nonword (r : list ascii) (c : ascii) (rest : list ascii) :
  is_word c = false -> run_end (r ++ c :: rest) = run_end r.
Proof.
  intros Hc. induction r as [|y r IH]; simpl.
  - rewrite (word_false_not_digit c Hc), Hc. reflexivity.
  - destruct (is_digit y); [exact IH | reflexivity].
Qed.

Lemma no_standalone_int_app (w : list ascii) (c : ascii) (rest : list ascii) :
  is_word c = false ->
  forall pw,
    no_standalone_int pw (w ++ c :: rest)
    = no_standalone_int pw w && no_standalone_int false rest.
Proof.
  intros Hc. induction w as [|x w IH]; intros pw.
  - simpl. rewrite (word_false_not_digit c Hc), Hc. reflexivity.
  - cbn [app no_standalone_int].
    rewrite (run_end_app_nonword w c rest Hc), IH, andb_assoc. reflexivity.
Qed.

Lemma single_spaced_app (w : list ascii) (c : ascii) (rest : list ascii) :
  is_space c = false ->
  forall b,
    single_spaced b (w ++ c :: rest)
    = single_spaced b w && single_spaced false rest.
Proof.
  intros Hc. induction w as [|x w IH]; intros b.
  - simpl. rewrite Hc. reflexivity.
  - cbn [app single_spaced]. rewrite IH, andb_assoc. reflexivity.
Qed.

Lemma scan_numbers_app (w : list ascii) (c : ascii) (rest : list ascii) :
  is_word c = false ->
  forall sk pw,
    scan_numbers sk pw (w ++ c :: rest)
    = scan_numbers sk pw w ++ c :: scan_numbers false false rest.
Proof.
  intros Hc. induction w as [|x w IH]; intros sk pw.
  - simpl. rewrite (word_false_not_digit c Hc), Hc, andb_false_r. reflexivity.
  - cbn [app scan_numbers]. rewrite (run_end_app_nonword w c rest Hc).
    destruct (sk && is_digit x); [apply IH|].
    destruct (is_digit x && negb pw && run_end w); simpl; f_equal; apply IH.
Qed.

Lemma scan_whitespace_app_nonspace (w : list ascii) (c : ascii) (rest : list ascii) :
  is_space c = false ->
  forall b,
    scan_whitespace b (w ++ c :: rest)
    = scan_whitespace b w ++ c :: scan_whitespace false rest.
Proof.
  intros Hc b. rewrite scan_whitespace_app. f_equal. simpl. rewrite Hc. reflexivity.
Qed.

Lemma strip_keep_quoted (a w b : list ascii) :
  exists a' b', strip (a ++ quoted w ++ b) = a' ++ quoted w ++ b'.
Proof.
  unfold strip, rstrip.
  destruct (lstrip_keep a (quoted w ++ b)) as [a' E]; [reflexivity|].
  rewrite E. rewrite !rev_app_distr, <- app_assoc.
  destruct (lstrip_keep (rev b) (rev (quoted w) ++ rev a')) as [b' E'].
  { unfold quoted. simpl. rewrite rev_app_distr. reflexivity. }
  rewrite E'. exists a', (rev b').
  rewrite !rev_app_distr, !rev_involutive, <- app_assoc. reflexivity.
Qed.

(** ** The classes of a quoted identifier *)

Lemma no_upper_quoted (w : list ascii) : no_upper (quoted w) = no_upper w.
Proof.
  unfold no_upper, quoted. simpl. rewrite forallb_app. simpl.
  rewrite andb_true_r. reflexivity.
Qed.

(** ** A segment of a text *)

Lemma is_prefix_split (seg s : list ascii) :
  is_prefix seg s = true -> exists b, s = seg ++ b.
Proof.
  revert s. induction seg as [|c seg IH]; intros s H.
  - exists s. reflexivity.
  - destruct s as [|d s]; [discriminate|]. simpl in H.
    apply andb_true_iff in H as [Hc Hs]. apply Ascii.eqb_eq in Hc. subst d.
    destruct (IH s Hs) as [b ->]. exists b. reflexivity.
Qed.

Lemma occurs_split (seg s : list ascii) :
  occurs seg s = true -> exists a b, s = a ++ seg ++ b.
Proof.
  induction s as [|c s IH]; intros H.
  - simpl in H. rewrite orb_false_r in H.
    destruct (is_prefix_split seg [] H) as [b E]. exists [], b. exact E.
  - simpl in H. apply orb_true_iff in H as [H | H].
    + destruct (is_prefix_split seg (c :: s) H) as [b E]. exists [], b. exact E.
    + destruct (IH H) as (a & b & ->). exists (c :: a), b. reflexivity.
Qed.

(** ** The two directions *)

(** The literal pass copies a quoted identifier that holds no single quote
    and stands outside every literal. *)
Lemma strings_pass_quoted (pre w post : list ascii) :
  Nat.even (count_quotes pre) = true ->
  forallb not_quote w = true ->
  exists pre',
    scan_strings false (pre ++ quoted w ++ post)
    = pre' ++ quoted w ++ scan_strings false post.
Proof.
  intros Hpre Hw.
  destruct (scan_strings_balanced pre (quoted w ++ post) false Hpre) as [pre1 E1].
  exists pre1. rewrite E1, scan_strings_plain; [reflexivity|].
  unfold quoted. simpl. rewrite forallb_app, Hw. reflexivity.
Qed.

(** An identifier that is as the later passes leave a text is found in the
    fingerprint as written. *)
Lemma kept_occurs (pre w post : list ascii) :
  Nat.even (count_quotes pre) = true ->
  forallb not_quote w = true ->
  kept_as_written w = true ->
  occurs (quoted w) (fingerprint_chars (pre ++ quoted w ++ post)) = true.
Proof.
  intros Hpre Hw Hk. unfold kept_as_written in Hk.
  apply andb_true_iff in Hk as [Hk Hint]. apply andb_true_iff in Hk as [Hup Hsp].
  destruct (strings_pass_quoted pre w post Hpre Hw) as [pre1 E1].
  rewrite fingerprint_chars_scan, E1.
  set (post1 := scan_strings false post).
  replace (pre1 ++ quoted w ++ post1) with (pre1 ++ dquote :: w ++ dquote :: post1)
    by (unfold quoted; cbn [app]; rewrite <- app_assoc; reflexivity).
  rewrite (scan_numbers_app pre1 dquote _ eq_refl).
  rewrite (scan_numbers_app w dquote post1 eq_refl).
  rewrite (scan_numbers_fixed w false Hint).
  set (pre2 := scan_numbers false false pre1).
  set (post2 := scan_numbers false false post1).
  rewrite (scan_whitespace_app_nonspace pre2 dquote _ eq_refl).
  rewrite (scan_whitespace_app_nonspace w dquote post2 eq_refl).
  rewrite (scan_whitespace_fixed w false Hsp).
  set (pre3 := scan_whitespace false pre2).
  set (post3 := scan_whitespace false post2).
  replace (pre3 ++ dquote :: w ++ dquote :: post3)
    with (pre3 ++ quoted w ++ post3)
    by (unfold quoted; cbn [app]; rewrite <- app_assoc; reflexivity).
  destruct (strip_keep_quoted pre3 w post3) as (pre4 & post4 & E4).
  rewrite E4. unfold lower. rewrite !map_app.
  fold (lower (quoted w)).
  rewrite (lower_fixed (quoted w)) by (rewrite no_upper_quoted; exact Hup).
  apply occurs_middle.
Qed.

(** A quoted identifier found in a fingerprint is as the later passes leave
    a text, and holds at most one single quote. *)
Lemma occurs_kept (sql w : list ascii) :
  occurs (quoted w) (fingerprint_chars sql) = true ->
  kept_as_written w = true /\ count_quotes w <= 1.
Proof.
  intros Hocc.
  destruct (fingerprint_chars_normal sql) as (Hup & _ & _ & Hsp & Hint & Hq).
  destruct (occurs_split _ _ Hocc) as (a & b & E). rewrite E in *.
  unfold quoted in *. cbn [app] in *. rewrite <- app_assoc in *. cbn [app] in *.
  split.
  - unfold kept_as_written. apply andb_true_iff. split; [apply andb_true_iff; split|].
    + unfold no_upper in *. rewrite forallb_app in Hup.
      apply andb_true_iff in Hup as [_ Hup]. simpl in Hup.
      rewrite forallb_app in Hup. apply andb_true_iff in Hup as [Hup _]. exact Hup.
    + rewrite (single_spaced_app a dquote _ eq_refl) in Hsp.
      apply andb_true_iff in Hsp as [_ Hsp].
      rewrite (single_spaced_app w dquote b eq_refl) in Hsp.
      apply andb_true_iff in Hsp as [Hsp _]. exact Hsp.
    + rewrite (no_standalone_int_app a dquote _ eq_refl) in Hint.
      apply andb_true_iff in Hint as [_ Hint].
      rewrite (no_standalone_int_app w dquote b eq_refl) in Hint.
      apply andb_true_iff in Hint as [Hint _]. exact Hint.
  - rewrite count_quotes_app, count_quotes_cons, count_quotes_app in Hq.
    change (is_quote dquote) with false in Hq. cbv iota in Hq. lia.
Qed.

(** ** C8 *)

(** C8 (amended), for ASCII text.  The literal pass never replaces a
    double-quoted identifier that holds no single quote and stands after an
    even number of single quotes (outside every literal): it copies it.  The
    later passes apply inside it as anywhere else, so such an identifier is
    found in the fingerprint exactly as written if and only if it has no
    upper-case letter, no standalone integer and no whitespace other than
    single blanks; and no fingerprint of any text holds a double-quoted
    segment that breaks one of these conditions.  So [my-col], [first name]
    and [a.b$c] are kept, while [col 1] and [a  b] are rewritten. *)
Theorem quoted_identifier_kept :
  (forall pre w post : list ascii,
      Nat.even (count_quotes pre) = true ->
      forallb not_quote w = true ->
      exists pre',
        re_sub _RE_STRINGS ["?"] 0 None (pre ++ quoted w ++ post)
        = pre' ++ quoted w ++ re_sub _RE_STRINGS ["?"] 0 None post)
  /\ (forall pre w post : list ascii,
        ascii_text (pre ++ quoted w ++ post) = true ->
        Nat.even (count_quotes pre) = true ->
        forallb not_quote w = true ->
        (occurs (quoted w) (fingerprint_chars (pre ++ quoted w ++ post)) = true
         <-> kept_as_written w = true))
  /\ (forall sql w : list ascii,
        ascii_text sql = true ->
        occurs (quoted w) (fingerprint_chars sql) = true ->
        kept_as_written w = true /\ count_quotes w <= 1)
  /\ fingerprint_query
       ("SELECT " ++ dq ++ "my-col" ++ dq ++ ", " ++ dq ++ "first name" ++ dq
        ++ " FROM " ++ dq ++ "a.b$c" ++ dq)%string
     = ("select " ++ dq ++ "my-col" ++ dq ++ ", " ++ dq ++ "first name" ++ dq
        ++ " from " ++ dq ++ "a.b$c" ++ dq)%string
  /\ fingerprint_query
       ("SELECT " ++ dq ++ "col 1" ++ dq ++ ", " ++ dq ++ "a  b" ++ dq ++ " FROM t")%string
     = ("select " ++ dq ++ "col ?" ++ dq ++ ", " ++ dq ++ "a b" ++ dq ++ " from t")%string.
Proof.
  split; [|split; [|split; [|split; reflexivity]]].
  - intros pre w post Hpre Hw.
    destruct (strings_pass_quoted pre w post Hpre Hw) as [pre1 E1].
    exists pre1. rewrite !(proj1 (re_sub_strings_scan _)). exact E1.
  - intros pre w post _ Hpre Hw. split.
    + intros Hocc. apply (occurs_kept _ _ Hocc).
    + intros Hk. apply kept_occurs; assumption.
  - intros sql w _ Hocc. apply (occurs_kept _ _ Hocc).
Qed.

(** The hypotheses of C8 (amended) hold for a quoted column name with a
    hyphen. *)
Lemma quoted_identifier_kept_witness :
  occurs (quoted (chars "my-col"))
         (fingerprint_chars
            (chars "SELECT " ++ quoted (chars "my-col") ++ chars " FROM t")) = true.
Proof.
  apply (proj2 (proj1 (proj2 quoted_identifier_kept)
                  (chars "SELECT ") (chars "my-col") (chars " FROM t")
                  eq_refl eq_refl eq_refl)).
  reflexivity.
Defined.

End QuotedIdentifier.

(* ===================================================================== *)
(** * N+1 grouper: the result object and the threshold                    *)
(* ===================================================================== *)

Module NPlusOneFacts.

Import Fingerprint NPlusOne.

Local Open Scope nat_scope.

(** ** Vocabulary *)

(** The query's fingerprint has at least [threshold] members among [qs]. *)
Definition repeated (threshold : Z) (qs : list SQLQuery) (q : SQLQuery) : bool :=
  qualifies threshold qs (fp_of q).

(** A query whose SQL text is the text of the pieces [ts]. *)
Definition query_of (key : Z) (ts : list token) : SQLQuery :=
  {| pk := key; query := text ts |}.

(** ** Lemmas *)

Lemma forall2_in_left {A B : Type} (R : A -> B -> Prop) (K : list A) (G : list B)
  (k : A) :
  Forall2 R K G -> In k K -> exists g, In g G /\ R k g.
Proof.
  induction 1 as [|k' g K G Hkg HKG IH]; [intros []|].
  intros [E | H].
  - subst k'. exists g. split; [left; reflexivity | exact Hkg].
  - destruct (IH H) as (g' & Hg' & HR). exists g'. split; [right; exact Hg' | exact HR].
Qed.

Lemma in_members (k : string) (qs : list SQLQuery) (q : SQLQuery) :
  In q (members k qs) <-> In q qs /\ fp_of q = k.
Proof.
  unfold members. rewrite filter_In. split; intros [H1 H2]; split; try assumption.
  - apply String.eqb_eq, H2.
  - apply String.eqb_eq, H2.
Qed.

(** The groups before the sort, against the qualifying fingerprints in order
    of first occurrence. *)
Lemma detect_spec (qs : list SQLQuery) (threshold : Z) :
  exists gs,
    detect_n_plus_one qs threshold = Some (new_result (sort_desc gs))
    /\ Forall2 (is_group_of qs)
               (List.filter (qualifies threshold qs) (first_seen (map fp_of qs))) gs.
Proof.
  unfold detect_n_plus_one. rewrite fill_buckets_spec.
  destruct (flag_groups_spec threshold qs (first_seen (map fp_of qs)))
    as (gs & Hgs & Hall).
  { intros k Hk. apply members_nonempty, first_seen_in, Hk. }
  rewrite Hgs. exists gs. split; [reflexivity | exact Hall].
Qed.

(** Membership in a group of the result. *)
Lemma in_some_group (qs : list SQLQuery) (threshold : Z) (gs : list NPlusOneGroup) :
  Forall2 (is_group_of qs)
          (List.filter (qualifies threshold qs) (first_seen (map fp_of qs))) gs ->
  forall q,
    (exists g, In g (sort_desc gs) /\ In q (queries g))
    <-> In q qs /\ repeated threshold qs q = true.
Proof.
  intros Hall q. split.
  - intros (g & Hg & Hq).
    apply (Permutation_in _ (sort_desc_perm gs)) in Hg.
    destruct (forall2_in_right _ _ _ g Hall Hg) as (k & Hk & (Ef & Eq & _)).
    rewrite Eq in Hq. apply in_members in Hq as [Hin Hfp].
    split; [exact Hin|]. unfold repeated. rewrite Hfp.
    apply filter_In in Hk. apply Hk.
  - intros [Hin Hrep].
    assert (Hk : In (fp_of q)
                   (List.filter (qualifies threshold qs) (first_seen (map fp_of qs)))).
    { apply filter_In. split; [|exact Hrep].
      apply first_seen_in, in_map, Hin. }
    destruct (forall2_in_left _ _ _ _ Hall Hk) as (g & Hg & (Ef & Eq & _)).
    exists g. split.
    + apply (Permutation_in _ (Permutation_sym (sort_desc_perm gs))), Hg.
    + rewrite Eq. apply in_members. split; [exact Hin | reflexivity].
Qed.

Lemma flagged_ids_spec (qs : list SQLQuery) (threshold : Z) :
  exists r,
    detect_n_plus_one qs threshold = Some r
    /\ (forall key : Z,
          key ∈ flagged_query_ids r
          <-> exists q, In q qs /\ pk q = key /\ repeated threshold qs q = true)
    /\ (has_n_plus_one r = true
        <-> exists q, In q qs /\ repeated threshold qs q = true).
Proof.
  destruct (detect_spec qs threshold) as (gs & Hdet & Hall).
  eexists. split; [exact Hdet|].
  pose proof (in_some_group qs threshold gs Hall) as Hgrp.
  cbn [flagged_query_ids has_n_plus_one new_result]. split.
  - intros key. rewrite elem_of_list_to_set, list_elem_of_In, in_flat_map. split.
    + intros (g & Hg & Hk). apply in_map_iff in Hk as (q & Hpk & Hq).
      destruct (proj1 (Hgrp q)) as [Hin Hrep]; [exists g; split; assumption|].
      exists q. split; [exact Hin|]. split; assumption.
    + intros (q & Hin & Hpk & Hrep).
      destruct (proj2 (Hgrp q) (conj Hin Hrep)) as (g & Hg & Hq).
      exists g. split; [exact Hg|]. apply in_map_iff. exists q. split; assumption.
  - split.
    + intros Hne. destruct (sort_desc gs) as [|g l] eqn:Es; [discriminate|].
      assert (Hg : In g (sort_desc gs)) by (rewrite Es; left; reflexivity).
      assert (Hg' := Hg).
      apply (Permutation_in _ (sort_desc_perm gs)) in Hg.
      destruct (forall2_in_right _ _ _ g Hall Hg) as (k & Hk & (Ef & Eq & Hc & Hr)).
      exists (representative g).
      assert (Hq : In (representative g) (queries g)).
      { destruct (queries g) as [|q0 l0]; [discriminate|].
        simpl in Hr. injection Hr as ->. left. reflexivity. }
      apply (Hgrp (representative g)). exists g.
      split; [left; reflexivity | exact Hq].
    + intros (q & Hin & Hrep).
      destruct (proj2 (Hgrp q) (conj Hin Hrep)) as (g & Hg & _).
      destruct (sort_desc gs); [destruct Hg | reflexivity].
Qed.

Lemma repeated_mono (t1 t2 : Z) (qs : list SQLQuery) (q : SQLQuery) :
  (t1 <= t2)%Z -> repeated t2 qs q = true -> repeated t1 qs q = true.
Proof.
  unfold repeated, qualifies. intros Ht H.
  apply Z.leb_le in H. apply Z.leb_le. lia.
Qed.

Lemma same_shape_fingerprint (ts1 ts2 : list token) :
  well_formed ts1 = true -> well_formed ts2 = true ->
  Forall2 same_shape ts1 ts2 ->
  fingerprint_query (text ts1) = fingerprint_query (text ts2).
Proof.
  intros H1 H2 Hs. unfold fingerprint_query, text.
  rewrite !list_ascii_roundtrip.
  rewrite (fingerprint_of_tokens ts1 H1), (fingerprint_of_tokens ts2 H2).
  rewrite (same_shape_lower ts1 ts2 Hs). reflexivity.
Qed.

Lemma list_sum_perm (l1 l2 : list nat) :
  Permutation l1 l2 -> list_sum l1 = list_sum l2.
Proof. induction 1; simpl; lia. Qed.

Lemma filter_length_disjoint {A : Type} (p q : A -> bool) (l : list A) :
  (forall x, In x l -> p x = true -> q x = false) ->
  List.length (List.filter (fun x => p x || q x) l)
  = List.length (List.filter p l) + List.length (List.filter q l).
Proof.
  induction l as [|x l IH]; intros H; [reflexivity|].
  assert (IH' := IH (fun y Hy => H y (or_intror Hy))).
  simpl. destruct (p x) eqn:Hp; simpl.
  - rewrite (H x (or_introl eq_refl) Hp). simpl. rewrite IH'. reflexivity.
  - destruct (q x); simpl; rewrite IH'; lia.
Qed.

Lemma members_total (qs : list SQLQuery) (K : list string) :
  List.NoDup K ->
  list_sum (map (fun k => List.length (members k qs)) K)
  = List.length (List.filter (fun q => existsb (String.eqb (fp_of q)) K) qs).
Proof.
  induction K as [|k K IH]; intros Hnd.
  - simpl. induction qs as [|q qs IHq]; [reflexivity | exact IHq].
  - inversion Hnd as [|? ? Hnotin Hnd']; subst.
    change (list_sum (map (fun k0 => List.length (members k0 qs)) (k :: K)))
      with (List.length (members k qs)
            + list_sum (map (fun k0 => List.length (members k0 qs)) K)).
    rewrite (IH Hnd'). cbn [existsb].
    rewrite (filter_length_disjoint
               (fun q => String.eqb (fp_of q) k)
               (fun q => existsb (String.eqb (fp_of q)) K)).
    + reflexivity.
    + intros q _ Hq. apply String.eqb_eq in Hq.
      destruct (existsb (String.eqb (fp_of q)) K) eqn:He; [|reflexivity].
      apply existsb_eqb_in in He. rewrite Hq in He. contradiction.
Qed.

Lemma groups_counts (qs : list SQLQuery) (K : list string) (gs : list NPlusOneGroup) :
  Forall2 (is_group_of qs) K gs ->
  map count gs = map (fun k => List.length (members k qs)) K.
Proof.
  induction 1 as [|k g K gs (Ef & Eq & Ec & _) _ IH]; [reflexivity|].
  simpl. rewrite IH, Ec, Eq. reflexivity.
Qed.

Lemma filter_length_perm {A : Type} (p : A -> bool) (l l' : list A) :
  Permutation l l' ->
  List.length (List.filter p l) = List.length (List.filter p l').
Proof.
  induction 1 as [|x l l' _ IH|x y l|l l' l'' _ IH1 _ IH2].
  - reflexivity.
  - simpl. destruct (p x); simpl; rewrite IH; reflexivity.
  - simpl. destruct (p x), (p y); reflexivity.
  - rewrite IH1. exact IH2.
Qed.

Lemma repeated_perm (threshold : Z) (qs qs' : list SQLQuery) (q : SQLQuery) :
  Permutation qs qs' -> repeated threshold qs q = repeated threshold qs' q.
Proof.
  intros Hp. unfold repeated, qualifies, members.
  rewrite (filter_length_perm _ qs qs' Hp). reflexivity.
Qed.

(** ** Theorems *)

(** X5. The flagged query ids of the result are exactly the keys of the
    queries whose fingerprint has at least [threshold] members, and
    [has_n_plus_one] holds exactly when there is such a query. *)
Theorem flagged_ids_are_repeated_queries :
  forall (qs : list SQLQuery) (threshold : Z),
  exists r,
    detect_n_plus_one qs threshold = Some r
    /\ (forall key : Z,
          key ∈ flagged_query_ids r
          <-> exists q, In q qs /\ pk q = key /\ repeated threshold qs q = true)
    /\ (has_n_plus_one r = true
        <-> exists q, In q qs /\ repeated threshold qs q = true).
Proof. exact flagged_ids_spec. Qed.

(** X6. Raising the threshold never flags more: the flagged ids and the
    flagged fingerprints at a higher threshold are among those at a lower
    one. *)
Theorem higher_threshold_flags_less :
  forall (qs : list SQLQuery) (t1 t2 : Z),
    (t1 <= t2)%Z ->
    exists r1 r2,
      detect_n_plus_one qs t1 = Some r1
      /\ detect_n_plus_one qs t2 = Some r2
      /\ flagged_query_ids r2 ⊆ flagged_query_ids r1
      /\ (has_n_plus_one r2 = true -> has_n_plus_one r1 = true)
      /\ (forall q, (exists g, In g (groups r2) /\ In q (queries g)) ->
                    exists g, In g (groups r1) /\ In q (queries g)).
Proof.
  intros qs t1 t2 Ht.
  destruct (detect_spec qs t1) as (gs1 & Hd1 & Hall1).
  destruct (detect_spec qs t2) as (gs2 & Hd2 & Hall2).
  destruct (flagged_ids_spec qs t1) as (r1 & Hr1 & Hid1 & Hh1).
  destruct (flagged_ids_spec qs t2) as (r2 & Hr2 & Hid2 & Hh2).
  exists r1, r2. split; [exact Hr1|]. split; [exact Hr2|].
  split; [|split].
  - intros key Hk. apply Hid1. apply Hid2 in Hk as (q & Hin & Hpk & Hrep).
    exists q. split; [exact Hin|]. split; [exact Hpk|].
    apply (repeated_mono t1 t2 qs q Ht Hrep).
  - intros H. apply Hh1. apply Hh2 in H as (q & Hin & Hrep).
    exists q. split; [exact Hin | apply (repeated_mono t1 t2 qs q Ht Hrep)].
  - rewrite Hd1 in Hr1. rewrite Hd2 in Hr2.
    injection Hr1 as <-. injection Hr2 as <-. cbn [groups new_result].
    intros q Hq. apply (in_some_group qs t2 gs2 Hall2) in Hq as [Hin Hrep].
    apply (in_some_group qs t1 gs1 Hall1). split; [exact Hin|].
    apply (repeated_mono t1 t2 qs q Ht Hrep).
Qed.

Lemma higher_threshold_flags_less_witness :
  exists r1 r2,
    detect_n_plus_one [query_1; query_2; query_3] 2 = Some r1
    /\ detect_n_plus_one [query_1; query_2; query_3] 4 = Some r2
    /\ flagged_query_ids r2 ⊆ flagged_query_ids r1
    /\ (has_n_plus_one r2 = true -> has_n_plus_one r1 = true)
    /\ (forall q, (exists g, In g (groups r2) /\ In q (queries g)) ->
                  exists g, In g (groups r1) /\ In q (queries g)).
Proof.
  apply (higher_threshold_flags_less [query_1; query_2; query_3] 2 4). lia.
Defined.

(** X7. Two queries of the input whose SQL texts have the same shape (they
    differ only in literal values, whitespace and letter case) are members
    of the same groups of the result. *)
Theorem same_shape_same_group :
  forall (qs : list SQLQuery) (threshold : Z) (k1 k2 : Z) (ts1 ts2 : list token),
    well_formed ts1 = true -> well_formed ts2 = true ->
    Forall2 same_shape ts1 ts2 ->
    In (query_of k1 ts1) qs -> In (query_of k2 ts2) qs ->
    exists r,
      detect_n_plus_one qs threshold = Some r
      /\ forall g, In g (groups r) ->
           (In (query_of k1 ts1) (queries g) <-> In (query_of k2 ts2) (queries g)).
Proof.
  intros qs threshold k1 k2 ts1 ts2 H1 H2 Hs Hin1 Hin2.
  destruct (detect_spec qs threshold) as (gs & Hd & Hall).
  eexists. split; [exact Hd|]. cbn [groups new_result].
  intros g Hg. apply (Permutation_in _ (sort_desc_perm gs)) in Hg.
  destruct (forall2_in_right _ _ _ g Hall Hg) as (k & _ & (_ & Eq & _)).
  rewrite Eq, !in_members.
  assert (Efp : fp_of (query_of k1 ts1) = fp_of (query_of k2 ts2))
    by (apply same_shape_fingerprint; assumption).
  rewrite Efp. tauto.
Qed.

Lemma same_shape_same_group_witness :
  exists r,
    detect_n_plus_one [query_of 1 example_id_5; query_of 2 example_id_42] 2 = Some r
    /\ forall g, In g (groups r) ->
         (In (query_of 1 example_id_5) (queries g)
          <-> In (query_of 2 example_id_42) (queries g)).
Proof.
  apply (same_shape_same_group
           [query_of 1 example_id_5; query_of 2 example_id_42] 2 1 2
           example_id_5 example_id_42).
  - reflexivity.
  - reflexivity.
  - repeat constructor.
  - left. reflexivity.
  - right. left. reflexivity.
Defined.

(** X8. The counts of the groups add up to the number of queries whose
    fingerprint has at least [threshold] members: every such query is
    counted in one group only, and no other query is counted. *)
Theorem group_counts_add_up :
  forall (qs : list SQLQuery) (threshold : Z),
  exists r,
    detect_n_plus_one qs threshold = Some r
    /\ list_sum (map count (groups r))
       = List.length (List.filter (repeated threshold qs) qs).
Proof.
  intros qs threshold.
  destruct (detect_spec qs threshold) as (gs & Hd & Hall).
  eexists. split; [exact Hd|]. cbn [groups new_result].
  rewrite (list_sum_perm _ _ (Permutation_map count (sort_desc_perm gs))).
  rewrite (groups_counts qs _ gs Hall).
  rewrite members_total by (apply List.NoDup_filter, first_seen_nodup).
  f_equal. apply List.filter_ext_in. intros q Hq.
  unfold repeated. apply eq_true_iff_eq. rewrite existsb_eqb_in, filter_In.
  split; [intros [_ H]; exact H|].
  intros H. split; [|exact H]. apply first_seen_in, in_map, Hq.
Qed.

(** X9. The flagged query ids and [has_n_plus_one] do not depend on the
    order of the queries: detection on a permutation of the input flags the
    same ids. *)
Theorem flagged_ids_order_independent :
  forall (qs qs' : list SQLQuery) (threshold : Z),
    Permutation qs qs' ->
    exists r r',
      detect_n_plus_one qs threshold = Some r
      /\ detect_n_plus_one qs' threshold = Some r'
      /\ flagged_query_ids r = flagged_query_ids r'
      /\ has_n_plus_one r = has_n_plus_one r'.
Proof.
  intros qs qs' threshold Hp.
  destruct (flagged_ids_spec qs threshold) as (r & Hr & Hid & Hh).
  destruct (flagged_ids_spec qs' threshold) as (r' & Hr' & Hid' & Hh').
  exists r, r'. split; [exact Hr|]. split; [exact Hr'|]. split.
  - apply set_eq. intros key. rewrite Hid, Hid'.
    split; intros (q & Hin & Hpk & Hrep); exists q.
    + split; [apply (Permutation_in _ Hp Hin)|]. split; [exact Hpk|].
      rewrite <- (repeated_perm threshold qs qs' q Hp). exact Hrep.
    + split; [apply (Permutation_in _ (Permutation_sym Hp) Hin)|]. split; [exact Hpk|].
      rewrite (repeated_perm threshold qs qs' q Hp). exact Hrep.
  - apply eq_true_iff_eq. rewrite Hh, Hh'.
    split; intros (q & Hin & Hrep); exists q.
    + split; [apply (Permutation_in _ Hp Hin)|].
      rewrite <- (repeated_perm threshold qs qs' q Hp). exact Hrep.
    + split; [apply (Permutation_in _ (Permutation_sym Hp) Hin)|].
      rewrite (repeated_perm threshold qs qs' q Hp). exact Hrep.
Qed.

Lemma flagged_ids_order_independent_witness :
  exists r r',
    detect_n_plus_one [query_1; query_2; query_3] 2 = Some r
    /\ detect_n_plus_one [query_2; query_1; query_3] 2 = Some r'
    /\ flagged_query_ids r = flagged_query_ids r'
    /\ has_n_plus_one r = has_n_plus_one r'.
Proof.
  apply (flagged_ids_order_independent
           [query_1; query_2; query_3] [query_2; query_1; query_3] 2).
  apply perm_swap.
Defined.

(** X10. The threshold is not checked.  At a threshold of 1 or less every
    query is flagged: the flagged ids are the keys of all queries.  At a
    threshold above the number of queries nothing is flagged: the result
    has no group. *)
Theorem threshold_extremes :
  (forall (qs : list SQLQuery) (threshold : Z),
      (threshold <= 1)%Z ->
      exists r,
        detect_n_plus_one qs threshold = Some r
        /\ (forall key : Z, key ∈ flagged_query_ids r <-> In key (map pk qs))
        /\ (has_n_plus_one r = true <-> qs <> []))
  /\ (forall (qs : list SQLQuery) (threshold : Z),
        (Z.of_nat (List.length qs) < threshold)%Z ->
        detect_n_plus_one qs threshold = Some (new_result [])).
Proof.
  split.
  - intros qs threshold Ht.
    assert (Hrep : forall q, In q qs -> repeated threshold qs q = true).
    { intros q Hq. unfold repeated, qualifies. apply Z.leb_le.
      pose proof (members_nonempty (fp_of q) qs (in_map fp_of qs q Hq)) as Hne.
      destruct (members (fp_of q) qs); [congruence | simpl List.length; lia]. }
    destruct (flagged_ids_spec qs threshold) as (r & Hr & Hid & Hh).
    exists r. split; [exact Hr|]. split.
    + intros key. rewrite Hid, in_map_iff. split.
      * intros (q & Hin & Hpk & _). exists q. split; assumption.
      * intros (q & Hpk & Hin). exists q.
        split; [exact Hin|]. split; [exact Hpk | apply Hrep, Hin].
    + rewrite Hh. split.
      * intros (q & Hin & _) E. rewrite E in Hin. exact Hin.
      * intros Hne. destruct qs as [|q rest]; [contradiction|].
        exists q. split; [left; reflexivity | apply Hrep; left; reflexivity].
  - intros qs threshold Ht.
    destruct (detect_spec qs threshold) as (gs & Hd & Hall).
    assert (Hnone : List.filter (qualifies threshold qs) (first_seen (map fp_of qs)) = []).
    { clear Hall. induction (first_seen (map fp_of qs)) as [|k K IH]; [reflexivity|].
      cbn [List.filter].
      assert (Hk : qualifies threshold qs k = false).
      { unfold qualifies, members. apply Z.leb_gt.
        pose proof (List.filter_length_le (fun q => String.eqb (fp_of q) k) qs). lia. }
      rewrite Hk. exact IH. }
    rewrite Hnone in Hall. inversion Hall; subst. exact Hd.
Qed.

Lemma threshold_extremes_witness :
  detect_n_plus_one [query_1; query_2; query_3] 4 = Some (new_result []).
Proof.
  apply (proj2 threshold_extremes [query_1; query_2; query_3] 4%Z).
  simpl. lia.
Defined.

End NPlusOneFacts.

(* ===================================================================== *)
(** * Further properties of [_percentile]                                 *)
(* ===================================================================== *)

Module PercentileFacts.
Import Percentile.

Local Open Scope Z_scope.


(** ** Lemmas *)



(** ** Theorems *)


End PercentileFacts.

(* ===================================================================== *)
(** * [RequestsView]: [get], the stored sort list, the rows of a page     *)
(* ===================================================================== *)

Module RequestsFacts.
Import Models Requests.

Local Open Scope string_scope.

(** [RequestsView._get_sort_list]:
    [request.session.get(SESSION_KEY_SORT, DEFAULT_SORT_LIST)]. *)
Definition _get_sort_list (session : Session) : list SortItem :=
  get_or (request_sort session) DEFAULT_SORT_LIST.

Section Get.

Variable json_loads : string -> Decoded.

(** [RequestsView.get], up to the final [render]: the session it leaves.
    [GET] gives the value of each query parameter.
<<
    if request.GET.get('sort_criteria'):
        try:
            sort_list = json.loads(request.GET['sort_criteria'])
            if isinstance(sort_list, list) and sort_list:
                self._save_sort_list(request, sort_list)
        except (ValueError, TypeError):
            pass
    elif request.GET.get('order_by') or request.GET.get('order_dir'):
        ob = request.GET.get('order_by', self.default_order_by)
        od = request.GET.get('order_dir', self.default_order_dir)
        self._save_sort_list(request, [{'field': ob, 'dir': od}])
    if request.GET:
        filters = { **self.filters_manager.get(request),
                    **{k: v for k, v in request.GET.items()
                       if k in ['show', 'order_by', 'order_dir', 'view_style']} }
        if 'per_page' in request.GET and 'show' not in request.GET:
            filters['show'] = request.GET['per_page']
        self.filters_manager.save(request, filters)
>> *)
Definition get (session : Session) (GET : gmap string string) : Session :=
  let session :=
    if truthy (GET !! "sort_criteria") then
      match json_loads (get_or (GET !! "sort_criteria") "") with
      | DecodedList (item :: rest) => _save_sort_list session (item :: rest)
      | _ => session
      end
    else if truthy (GET !! "order_by") || truthy (GET !! "order_dir") then
      let ob := get_or (GET !! "order_by") default_order_by in
      let od := get_or (GET !! "order_dir") default_order_dir in
      _save_sort_list session [ {| item_field := Some ob; item_dir := Some od |} ]
    else session in
  if bool_decide (GET = ∅) then session
  else
    let filters :=
      dict_merge (filters_manager_get session)
                 (dict_keep non_filter_keys (VStr <$> GET)) in
    let filters :=
      match GET !! "per_page", GET !! "show" with
      | Some v, None => <["show" := VStr v]> filters
      | _, _ => filters
      end in
    filters_manager_save session filters.

End Get.

(** ** Vocabulary of the statements *)

(** The session does not hold an empty sort list. *)
Definition sort_ok (session : Session) : Prop := request_sort session <> Some [].



Definition empty_session : Session :=
  {| request_filters := None; request_sort := None |}.




(** ** Lemmas *)

Section GetFacts.

Variable json_loads : string -> Decoded.


Lemma get_sort (session : Session) (GET : gmap string string) :
  request_sort (get json_loads session GET)
  = if truthy (GET !! "sort_criteria") then
      match json_loads (get_or (GET !! "sort_criteria") "") with
      | DecodedList (item :: rest) => Some (item :: rest)
      | _ => request_sort session
      end
    else if truthy (GET !! "order_by") || truthy (GET !! "order_dir") then
      Some [ {| item_field := Some (get_or (GET !! "order_by") default_order_by);
                item_dir := Some (get_or (GET !! "order_dir") default_order_dir) |} ]
    else request_sort session.
Proof using Type.
  unfold get. cbv zeta.
  destruct (bool_decide (GET = ∅)); cbn [filters_manager_save request_sort];
    (destruct (truthy (GET !! "sort_criteria"));
     [destruct (json_loads _) as [|[|]|]; reflexivity
     |destruct (truthy (GET !! "order_by") || truthy (GET !! "order_dir")); reflexivity]).
Qed.

End GetFacts.

Lemma post_sort (json_loads : string -> Decoded)
  (filters_from_request : gmap string Value -> outcome (gmap string Value))
  (session : Session) (POST : gmap string Value) :
  sort_ok session ->
  sort_ok (fst (post json_loads filters_from_request session POST)).
Proof.
  unfold sort_ok, post. cbv zeta. intros Hok.
  set (session' := match POST !! "sort_criteria" with
                   | Some (VStr raw) => _
                   | _ => session
                   end).
  assert (Hs : request_sort session' <> Some []).
  { subst session'. destruct (POST !! "sort_criteria") as [[raw| |]|]; try exact Hok.
    destruct (String.eqb raw ""); [exact Hok|].
    destruct (json_loads raw) as [|[|]|]; try exact Hok; discriminate. }
  destruct (bool_decide (is_Some (POST !! "clear_filters"))); [exact Hs|].
  destruct (is_filter_submit POST); [|exact Hs].
  destruct (filters_from_request POST); exact Hs.
Qed.

Lemma get_sort_list_nonempty (session : Session) :
  sort_ok session -> _get_sort_list session <> [].
Proof.
  unfold sort_ok, _get_sort_list. destruct (request_sort session) as [l|]; cbn.
  - intros H E. apply H. rewrite E. reflexivity.
  - discriminate.
Qed.


Lemma evaluate_slice_length (n : nat) (qs : QuerySet) :
  (List.length (evaluate (qs_slice n qs)) <= n)%nat.
Proof.
  unfold evaluate, qs_slice. cbn [qs_limit qs_order qs_rows].
  rewrite length_firstn. lia.
Qed.

(** ** Theorems *)


(** X16. Neither [get] nor [post] ever stores an empty sort list, so
    [_get_sort_list] returns a non-empty list, and the call of
    [_get_objects] that [_create_context] makes ([show=None], the stored
    sort list) raises no [RuntimeError] whatever [order_by] and
    [order_dir] are: the view does not reach the legacy branch. *)
Theorem stored_sort_list_never_empty :
  forall (json_loads : string -> Decoded)
         (filters_from_request : gmap string Value -> outcome (gmap string Value))
         (session : Session),
    sort_ok session ->
    (forall GET, sort_ok (get json_loads session GET))
    /\ (forall POST, sort_ok (fst (post json_loads filters_from_request session POST)))
    /\ _get_sort_list session <> []
    /\ (forall table order_by order_dir path filters,
          is_runtime_error
            (_get_objects table ShowNone order_by order_dir path filters
                          (_get_sort_list session))
          = false).
Proof.
  intros json_loads filters_from_request session Hok.
  split; [|split; [|split]].
  - intros GET. unfold sort_ok. rewrite get_sort.
    destruct (truthy (GET !! "sort_criteria")).
    + destruct (json_loads _) as [|[|]|]; try exact Hok. discriminate.
    + destruct (truthy (GET !! "order_by") || truthy (GET !! "order_dir"));
        [discriminate | exact Hok].
  - intros POST. apply post_sort. exact Hok.
  - apply get_sort_list_nonempty. exact Hok.
  - intros table order_by order_dir path filters.
    pose proof (get_sort_list_nonempty session Hok) as Hne.
    destruct (_get_sort_list session) as [|item l]; [contradiction|].
    reflexivity.
Qed.

Lemma stored_sort_list_never_empty_witness :
  sort_ok (get (fun _ => DecodedList []) empty_session
               (<["sort_criteria" := "[]"]> ∅)).
Proof.
  apply (proj1 (stored_sort_list_never_empty (fun _ => DecodedList [])
                  (fun _ => Return ∅) empty_session ltac:(discriminate))).
Defined.





(** X19. The legacy arguments of [_get_objects] are a one-entry sort list:
    with an empty sort list, a known non-empty [order_by] and a non-empty
    [order_dir] give what the sort list [[{field: order_by, dir:
    order_dir}]] gives; with neither given, what [DEFAULT_SORT_LIST] gives;
    and with a non-empty sort list, [order_by] and [order_dir] are not
    looked at. *)
Theorem legacy_arguments_as_sort_list :
  (forall table show path filters (ob od : string),
      ob <> "" -> od <> "" -> dict_get ob SORT_OPTIONS <> None ->
      _get_objects table show (Some ob) (Some od) path filters []
      = _get_objects table show None None path filters
          [ {| item_field := Some ob; item_dir := Some od |} ])
  /\ (forall table show path filters,
        _get_objects table show None None path filters []
        = _get_objects table show None None path filters DEFAULT_SORT_LIST)
  /\ (forall table show ob od ob' od' path filters sort_list,
        sort_list <> [] ->
        _get_objects table show ob od path filters sort_list
        = _get_objects table show ob' od' path filters sort_list).
Proof.
  split; [|split].
  - intros table show path filters ob od Hob Hod Hknown.
    unfold _get_objects. cbv zeta.
    assert (Ht1 : truthy (Some ob) = true)
      by (simpl; apply negb_true_iff, String.eqb_neq; exact Hob).
    assert (Ht2 : truthy (Some od) = true)
      by (simpl; apply negb_true_iff, String.eqb_neq; exact Hod).
    rewrite Ht1, Ht2. cbn [get_or].
    destruct (dict_get ob SORT_OPTIONS); [reflexivity | contradiction].
  - intros table show path filters. reflexivity.
  - intros table show ob od ob' od' path filters sort_list Hne.
    destruct sort_list as [|item l]; [contradiction | reflexivity].
Qed.

Lemma legacy_arguments_as_sort_list_witness :
  _get_objects [] ShowNone (Some "path") (Some "ASC") None [] []
  = _get_objects [] ShowNone None None None [] [by_field "path"].
Proof.
  apply (proj1 legacy_arguments_as_sort_list [] ShowNone None [] "path" "ASC");
    discriminate.
Defined.

(** X20. With a non-negative [show], [_get_objects] returns a query set
    that yields at most [show] rows, unless it raises the legacy
    [RuntimeError]; with [show] not passed it behaves as with
    [show = 25]. *)
Theorem get_objects_page_size :
  (forall table (n : Z) order_by order_dir path filters sort_list,
      (0 <= n)%Z ->
      match _get_objects table (ShowInt n) order_by order_dir path filters sort_list with
      | Return qs => (List.length (evaluate qs) <= Z.to_nat n)%nat
      | Raise e => sort_list = [] /\ exists msg, e = RuntimeError msg
      end)
  /\ (forall table order_by order_dir path filters sort_list,
        _get_objects table ShowNotSet order_by order_dir path filters sort_list
        = _get_objects table (ShowInt 25) order_by order_dir path filters sort_list).
Proof.
  split.
  - intros table n order_by order_dir path filters sort_list Hn.
    unfold _get_objects. cbv zeta.
    assert (Hneg : (n <? 0)%Z = false) by (apply Z.ltb_ge; exact Hn).
    destruct sort_list as [|item l].
    + destruct (dict_get _ SORT_OPTIONS).
      * rewrite Hneg. apply evaluate_slice_length.
      * split; [reflexivity | eexists; reflexivity].
    + rewrite Hneg. apply evaluate_slice_length.
  - intros. reflexivity.
Qed.

Lemma get_objects_page_size_witness :
  match _get_objects [timed 1 None; timed 2 None; timed 3 None] (ShowInt 2)
                     None None None [] [] with
  | Return qs => (List.length (evaluate qs) <= Z.to_nat 2)%nat
  | Raise e => @nil SortItem = [] /\ exists msg, e = RuntimeError msg
  end.
Proof.
  apply (proj1 get_objects_page_size
           [timed 1 None; timed 2 None; timed 3 None] 2%Z None None None [] []).
  lia.
Defined.



(** X22. An unknown [order_by] in the query string does not break the
    page: [get] stores it as a one-entry sort list, and with that list
    [_get_objects] returns the whole table, unordered, whatever [order_by]
    it is passed beside. *)
Theorem unknown_order_by_in_url :
  forall (json_loads : string -> Decoded) (session : Session)
         (GET : gmap string string) (ob : string)
         (table : list Request) (order_by order_dir : option string),
    truthy (GET !! "sort_criteria") = false ->
    GET !! "order_by" = Some ob ->
    ob <> "" ->
    dict_get ob SORT_OPTIONS = None ->
    _get_objects table ShowNone order_by order_dir None []
                 (_get_sort_list (get json_loads session GET))
    = Return (table_of table).
Proof.
  intros json_loads session GET ob table order_by order_dir Hsc Hob Hne Hget.
  unfold _get_sort_list. rewrite get_sort, Hsc, Hob.
  assert (Ht : truthy (Some ob) = true)
    by (simpl; apply negb_true_iff, String.eqb_neq; exact Hne).
  rewrite Ht. cbn [orb get_or].
  unfold _get_objects, _apply_sort. cbv zeta. cbn [fold_left].
  rewrite sort_step_unknown by (unfold known; cbn [item_field get_or]; rewrite Hget; reflexivity).
  reflexivity.
Qed.

Lemma unknown_order_by_in_url_witness :
  _get_objects [timed 1 None] ShowNone (Some "bogus") None None []
               (_get_sort_list (get (fun _ => DecodeError) empty_session
                                    (<["order_by" := "bogus"]> ∅)))
  = Return (table_of [timed 1 None]).
Proof.
  apply (unknown_order_by_in_url (fun _ => DecodeError) empty_session
           (<["order_by" := "bogus"]> ∅) "bogus" [timed 1 None] (Some "bogus") None).
  - reflexivity.
  - reflexivity.
  - discriminate.
  - reflexivity.
Defined.

End RequestsFacts.

(* ===================================================================== *)
(** * The summary charts do not depend on the row order                   *)
(* ===================================================================== *)

Module SummaryFacts.
Import Models Histogram StatusDistribution.

Local Open Scope Z_scope.

(** ** Lemmas *)

Lemma considered_perm (rows rows' : list Request) :
  Permutation rows rows' -> Permutation (considered rows) (considered rows').
Proof.
  induction 1 as [|r l l' _ IH|r1 r2 l|l l' l'' _ IH1 _ IH2].
  - apply Permutation_refl.
  - simpl. destruct (time_taken r) as [t|]; [|exact IH].
    destruct (Qle_bool 0 t); [apply perm_skip|]; exact IH.
  - simpl.
    destruct (time_taken r1) as [t1|], (time_taken r2) as [t2|];
      try apply Permutation_refl.
    destruct (Qle_bool 0 t1), (Qle_bool 0 t2);
      try apply Permutation_refl. apply perm_swap.
  - eapply Permutation_trans; eassumption.
Qed.

Lemma histogram_formula (rows : list Request) :
  _response_time_histogram rows
  = map (fun b => (label b, count b))
        (buckets_with (tally (below 50) rows) (tally (between 50 100) rows)
                      (tally (between 100 200) rows) (tally (between 200 500) rows)
                      (tally (between 500 1000) rows) (tally (from 1000) rows)).
Proof.
  unfold _response_time_histogram, tally.
  change initial_buckets with (buckets_with 0 0 0 0 0 0).
  rewrite count_times_fold. reflexivity.
Qed.

Lemma tally_perm (p : Q -> bool) (rows rows' : list Request) :
  Permutation rows rows' -> tally p rows = tally p rows'.
Proof.
  intros Hp. unfold tally.
  apply NPlusOneFacts.filter_length_perm, considered_perm, Hp.
Qed.

Lemma status_distribution_formula (requests : list Request) (responses : list Response) :
  _status_distribution requests responses
  = Some (four_buckets
            (responses_with (in_class 200 300) requests responses)
            (responses_with (in_class 300 400) requests responses)
            (responses_with (in_class 400 500) requests responses)
            (responses_with (at_least 500) requests responses)).
Proof.
  unfold _status_distribution. cbv zeta.
  destruct (map req_pk requests) as [|pk0 pks] eqn:Epk.
  - destruct requests; [|discriminate].
    rewrite !responses_with_nil. reflexivity.
  - rewrite count_rows_four, !weight_group_by_status.
    rewrite <- Epk, !matching_codes_filter. reflexivity.
Qed.

Lemma existsb_perm {A : Type} (p : A -> bool) (l l' : list A) :
  Permutation l l' -> existsb p l = existsb p l'.
Proof.
  intros Hp. apply eq_true_iff_eq. rewrite !existsb_exists.
  split; intros (x & Hin & Hx); exists x; split; try exact Hx.
  - apply (Permutation_in _ Hp Hin).
  - apply (Permutation_in _ (Permutation_sym Hp) Hin).
Qed.

Lemma responses_with_perm (p : Z -> bool) (requests requests' : list Request)
  (responses responses' : list Response) :
  Permutation requests requests' -> Permutation responses responses' ->
  responses_with p requests responses = responses_with p requests' responses'.
Proof.
  intros Hq Hr. unfold responses_with. f_equal.
  rewrite (NPlusOneFacts.filter_length_perm _ responses responses' Hr).
  f_equal. apply List.filter_ext. intros r.
  destruct (status_code r) as [sc|]; [|reflexivity].
  rewrite (existsb_perm _ (map req_pk requests) (map req_pk requests'))
    by (apply Permutation_map, Hq).
  reflexivity.
Qed.

(** ** Theorems *)

(** X23. The response-time histogram does not depend on the order in which
    the rows arrive (the query has no [ORDER BY]): on a permutation of the
    rows it is the same. *)
Theorem histogram_order_independent :
  forall rows rows' : list Request,
    Permutation rows rows' ->
    _response_time_histogram rows = _response_time_histogram rows'.
Proof.
  intros rows rows' Hp. rewrite !histogram_formula.
  rewrite !(tally_perm _ rows rows' Hp). reflexivity.
Qed.

Lemma histogram_order_independent_witness :
  _response_time_histogram [row (Some 50%Q); row None; row (Some 1200%Q)]
  = _response_time_histogram [row None; row (Some 50%Q); row (Some 1200%Q)].
Proof.
  apply (histogram_order_independent
           [row (Some 50%Q); row None; row (Some 1200%Q)]
           [row None; row (Some 50%Q); row (Some 1200%Q)]).
  apply perm_swap.
Defined.

(** X24. The status distribution does not depend on the order of the
    requests nor on the order of the responses: on permutations of both it
    is the same. *)
Theorem status_distribution_order_independent :
  forall (requests requests' : list Request) (responses responses' : list Response),
    Permutation requests requests' ->
    Permutation responses responses' ->
    _status_distribution requests responses
    = _status_distribution requests' responses'.
Proof.
  intros requests requests' responses responses' Hq Hr.
  rewrite !status_distribution_formula.
  rewrite !(responses_with_perm _ requests requests' responses responses' Hq Hr).
  reflexivity.
Qed.

Lemma status_distribution_order_independent_witness :
  _status_distribution [request_1] [response_of 1 (Some 200); response_of 1 (Some 404)]
  = _status_distribution [request_1] [response_of 1 (Some 404); response_of 1 (Some 200)].
Proof.
  apply (status_distribution_order_independent
           [request_1] [request_1]
           [response_of 1 (Some 200); response_of 1 (Some 404)]
           [response_of 1 (Some 404); response_of 1 (Some 200)]).
  - apply Permutation_refl.
  - apply perm_swap.
Defined.

End SummaryFacts.
